(** * AI Smart Trip Planner: client-side session, chat and ranking logic

    A shallow embedding of the decision logic of the web and mobile clients:

    - [Api]: the axios client of the mobile app, its request interceptor and
      the 401 / token-refresh response interceptor (module-level
      [isRefreshing] flag and [failedQueue]);
    - [AuthStore]: the [logout] action of the zustand authentication store;
    - [JsArray], [FlightResultsScreen], [HotelResultsScreen]: the
      [sortedResults] computation of the two result screens;
    - [JsString], [TravelChat]: the chat component ([sendMessage],
      [handleConfirmPlan], the confirm button);
    - [Scoring]: the utility scoring engine, which runs on the server and is
      modelled from its specification;
    - [NotificationStore], [MobileNotificationStore]: the notification
      stores of the two clients;
    - [Formatters]: display formatters of the web client.

    The definitions come first; the properties follow in the modules whose
    names end in [Facts] or [Extra].

    Asynchronous functions are embedded as explicit state machines: every
    [await] is a suspension point, the code between two suspension points is
    one atomic step (the JavaScript event loop runs it to completion). *)

From Stdlib Require Import QArith Qabs Lqa Sorted.
From stdpp Require Import base option list strings gmap.

Local Open Scope string_scope.
Local Open Scope list_scope.

(** ** AsyncStorage

    The key-value store of the mobile app.  Keys and values are strings; the
    three keys below are the ones of [STORAGE_KEYS] the session code uses.
    Storage operations themselves are taken to succeed. *)
Module Storage.

Definition AUTH_TOKEN : string := "auth_token".
Definition REFRESH_TOKEN : string := "refresh_token".
Definition USER_DATA : string := "user_data".

Definition getItem (k : string) (s : gmap string string) : option string :=
  s !! k.

Definition setItem (k v : string) (s : gmap string string) : gmap string string :=
  <[k := v]> s.

Definition multiRemove (ks : list string) (s : gmap string string)
  : gmap string string :=
  foldr delete s ks.

Definition session_keys : list string := [AUTH_TOKEN; REFRESH_TOKEN; USER_DATA].

End Storage.

(** ** The axios client and its interceptors *)
Module Api.
Import Storage.

(** The request configuration object axios hands to the interceptors.
    [_retry] is the flag the response interceptor sets on the request that
    drives a refresh; [Authorization] is the header of that name. *)
Record Request := mkRequest {
  req_id : nat;
  _retry : bool;
  Authorization : option string;
}.

Definition Bearer (token : string) : string := String.append "Bearer " token.

Definition set_Authorization (token : string) (r : Request) : Request :=
  {| req_id := req_id r; _retry := _retry r;
     Authorization := Some (Bearer token) |}.

Definition set_retry (r : Request) : Request :=
  {| req_id := req_id r; _retry := true; Authorization := Authorization r |}.

(** Errors a promise can reject with: an [AxiosError] carrying
    [error.response?.status], or a plain [Error] with its message. *)
Inductive Err :=
| AxiosError (status : option nat)
| JsError (message : string).

(** Request interceptor: attach the stored access token, when there is a
    non-empty one. *)
Definition request_interceptor (s : gmap string string) (config : Request)
  : Request :=
  match getItem AUTH_TOKEN s with
  | Some token => if String.eqb token "" then config
                  else set_Authorization token config
  | None => config
  end.

(** Where a running refresh handler is suspended (the [await]s of the
    [try] and [catch] blocks of the response interceptor). *)
Inductive Pc :=
| AwaitGetRefreshToken
| AwaitRefreshPost (refreshToken : string)
| AwaitSetAuthToken (newAccessToken newRefreshToken : string)
| AwaitSetRefreshToken (newAccessToken newRefreshToken : string)
| AwaitMultiRemove (refreshError : Err).

Record Handler := mkHandler {
  originalRequest : Request;
  pc : Pc;
}.

(** The module-level variables, the store, and the suspended handlers. *)
Record State := mkState {
  isRefreshing : bool;
  failedQueue : list Request;
  storage : gmap string string;
  handlers : list Handler;
}.

(** What the event loop delivers: a failed response reaching the response
    interceptor, the settlement of the storage operation or of the refresh
    call handler [h] awaits, and writes to the store by other code (login,
    register, logout). *)
Inductive Event :=
| ResponseError (status : option nat) (config : Request)
| StorageSettled (h : nat)
| RefreshSettled (h : nat) (result : Err + string * string)
| ExtSetItem (k v : string)
| ExtMultiRemove (ks : list string).

(** What the interceptor does to the outside: post to the refresh endpoint,
    send a request again through [api], reject the promise of a request. *)
Inductive Action :=
| RefreshCall (refreshToken : string)
| Reissue (r : Request)
| Reject (r : Request) (e : Err).

(** [processQueue]: settle every queued promise, oldest first; the caller
    then empties the queue. *)
Definition processQueue (error : option Err) (token : string)
    (queue : list Request) : list Action :=
  map (fun r => match error with
                | Some e => Reject r e
                | None => Reissue (set_Authorization token r)
                end) queue.

Definition set_handler (h : nat) (x : Handler) (st : State) : State :=
  {| isRefreshing := isRefreshing st; failedQueue := failedQueue st;
     storage := storage st; handlers := <[h := x]> (handlers st) |}.

(** Entering the [catch] block: the queue is rejected at once, then the
    handler suspends on [multiRemove] with [isRefreshing] still set. *)
Definition enter_catch (h : nat) (hd : Handler) (e : Err) (st : State)
  : State * list Action :=
  ({| isRefreshing := isRefreshing st; failedQueue := [];
      storage := storage st;
      handlers := <[h := mkHandler (originalRequest hd) (AwaitMultiRemove e)]>
                    (handlers st) |},
   processQueue (Some e) "" (failedQueue st)).

Definition is_401 (status : option nat) : bool :=
  match status with Some n => Nat.eqb n 401 | None => false end.

Definition step (st : State) (ev : Event) : option (State * list Action) :=
  match ev with
  | ResponseError status config =>
      if is_401 status && negb (_retry config) then
        if isRefreshing st then
          Some ({| isRefreshing := true;
                   failedQueue := failedQueue st ++ [config];
                   storage := storage st; handlers := handlers st |}, [])
        else
          Some ({| isRefreshing := true; failedQueue := failedQueue st;
                   storage := storage st;
                   handlers := handlers st ++
                     [mkHandler (set_retry config) AwaitGetRefreshToken] |}, [])
      else Some (st, [Reject config (AxiosError status)])
  | StorageSettled h =>
      hd ← handlers st !! h;
      match pc hd with
      | AwaitGetRefreshToken =>
          match getItem REFRESH_TOKEN (storage st) with
          | Some refreshToken =>
              if String.eqb refreshToken "" then
                Some (enter_catch h hd (JsError "No refresh token") st)
              else
                Some (set_handler h
                        (mkHandler (originalRequest hd)
                                   (AwaitRefreshPost refreshToken)) st,
                      [RefreshCall refreshToken])
          | None => Some (enter_catch h hd (JsError "No refresh token") st)
          end
      | AwaitRefreshPost _ => None
      | AwaitSetAuthToken a r =>
          Some ({| isRefreshing := isRefreshing st;
                   failedQueue := failedQueue st;
                   storage := setItem AUTH_TOKEN a (storage st);
                   handlers := <[h := mkHandler (originalRequest hd)
                                         (AwaitSetRefreshToken a r)]>
                                 (handlers st) |}, [])
      | AwaitSetRefreshToken a r =>
          Some ({| isRefreshing := false; failedQueue := [];
                   storage := setItem REFRESH_TOKEN r (storage st);
                   handlers := delete h (handlers st) |},
                processQueue None a (failedQueue st) ++
                  [Reissue (set_Authorization a (originalRequest hd))])
      | AwaitMultiRemove e =>
          Some ({| isRefreshing := false; failedQueue := failedQueue st;
                   storage := multiRemove session_keys (storage st);
                   handlers := delete h (handlers st) |},
                [Reject (originalRequest hd) e])
      end
  | RefreshSettled h result =>
      hd ← handlers st !! h;
      match pc hd with
      | AwaitRefreshPost _ =>
          match result with
          | inl e => Some (enter_catch h hd e st)
          | inr (a, r) =>
              Some (set_handler h
                      (mkHandler (originalRequest hd) (AwaitSetAuthToken a r)) st,
                    [])
          end
      | _ => None
      end
  | ExtSetItem k v =>
      Some ({| isRefreshing := isRefreshing st; failedQueue := failedQueue st;
               storage := setItem k v (storage st);
               handlers := handlers st |}, [])
  | ExtMultiRemove ks =>
      Some ({| isRefreshing := isRefreshing st; failedQueue := failedQueue st;
               storage := multiRemove ks (storage st);
               handlers := handlers st |}, [])
  end.

Fixpoint run (st : State) (evs : list Event) : option (State * list Action) :=
  match evs with
  | [] => Some (st, [])
  | ev :: evs' =>
      '(st1, acts1) ← step st ev;
      '(st2, acts2) ← run st1 evs';
      Some (st2, acts1 ++ acts2)
  end.

(** *** Observations on coordinator states *)

Definition in_flight (hd : Handler) : bool :=
  match pc hd with
  | AwaitRefreshPost _ => true
  | _ => false
  end.

(** Number of refresh calls that have been sent and have not settled. *)
Definition refreshes_in_flight (st : State) : nat :=
  length (List.filter in_flight (handlers st)).

Definition idle (st : State) : Prop :=
  isRefreshing st = false ∧ handlers st = [] ∧ failedQueue st = [].

(** The flag is set exactly while one handler is running. *)
Definition coherent (st : State) : Prop :=
  if isRefreshing st then ∃ hd, handlers st = [hd] else handlers st = [].

Definition unauthorized (r : Request) : Event := ResponseError (Some 401) r.

Definition is_refresh_call (a : Action) : bool :=
  match a with
  | RefreshCall _ => true
  | _ => false
  end.

(** An event that stores a refresh token from outside the interceptor
    (the [login] and [register] actions do). *)
Definition stores_refresh_token (ev : Event) : bool :=
  match ev with
  | ExtSetItem k _ => String.eqb k REFRESH_TOKEN
  | _ => false
  end.

(** The stored credential pair, as a reader of the store sees it. *)
Definition credentials (st : State) : option string * option string :=
  (getItem AUTH_TOKEN (storage st), getItem REFRESH_TOKEN (storage st)).

(** The state after the requests [rs] joined the queue. *)
Definition enqueued (rs : list Request) (st : State) : State :=
  {| isRefreshing := true; failedQueue := failedQueue st ++ rs;
     storage := storage st; handlers := handlers st |}.

(** One refresh cycle that succeeds, with other requests failing with 401
    in each of the four windows the driving handler leaves open: while it
    reads the refresh token ([rs1]), while the refresh call is in flight
    ([rs2]), and while each of the two new tokens is stored ([rs3], [rs4]).
    The cycle is cut where the store is written. *)
Definition cycle_until_tokens (r : Request) (rs1 rs2 rs3 : list Request)
    (newAccessToken newRefreshToken : string) : list Event :=
  [unauthorized r] ++ map unauthorized rs1 ++
  [StorageSettled 0] ++ map unauthorized rs2 ++
  [RefreshSettled 0 (inr (newAccessToken, newRefreshToken))] ++
  map unauthorized rs3.

Definition cycle_first_write (rs4 : list Request) : list Event :=
  [StorageSettled 0] ++ map unauthorized rs4.

Definition cycle_second_write : list Event := [StorageSettled 0].

Definition refresh_cycle (r : Request) (rs1 rs2 rs3 rs4 : list Request)
    (newAccessToken newRefreshToken : string) : list Event :=
  cycle_until_tokens r rs1 rs2 rs3 newAccessToken newRefreshToken ++
  cycle_first_write rs4 ++ cycle_second_write.

(** A refresh call that fails, requests [late] failing with 401 while the
    local clear is pending, and the clear. *)
Definition failed_refresh (e : Err) (late : list Request) : list Event :=
  [RefreshSettled 0 (inl e)] ++ map unauthorized late ++ [StorageSettled 0].

(** The atomic replacement of the credential pair, as a property of the
    interceptor: whoever reads the store at any point of a refresh cycle
    sees the pair as it was before the cycle, or both new tokens. *)
Definition replaced_atomically : Prop :=
  ∀ st r a' r' evs st' acts,
    idle st → _retry r = false →
    evs `prefix_of` refresh_cycle r [] [] [] [] a' r' →
    run st evs = Some (st', acts) →
    credentials st' = credentials st ∨ credentials st' = (Some a', Some r').

(** A store holding a session, and the coordinator at rest over it. *)
Definition session_store (accessToken refreshToken : string)
  : gmap string string :=
  setItem REFRESH_TOKEN refreshToken (setItem AUTH_TOKEN accessToken ∅).

Definition at_rest (s : gmap string string) : State :=
  {| isRefreshing := false; failedQueue := []; storage := s; handlers := [] |}.

Definition request (n : nat) (token : string) : Request :=
  {| req_id := n; _retry := false; Authorization := Some (Bearer token) |}.

(** A handler that has not yet posted to the refresh endpoint, or has left
    the [try] block for the [catch] block. *)
Definition before_or_after_refresh (hd : Handler) : bool :=
  match pc hd with
  | AwaitGetRefreshToken | AwaitMultiRemove _ => true
  | _ => false
  end.

Definition signed_out (st : State) : Prop :=
  getItem REFRESH_TOKEN (storage st) = None ∧
  Forall (λ hd, before_or_after_refresh hd = true) (handlers st).

(** A 401 met with no usable refresh token in the store: the handler
    throws before it posts.  [rs] fail with 401 while the handler reads the
    store, [late] while the local clear is pending. *)
Definition tokenless_cycle (r : Request) (rs late : list Request) : list Event :=
  [unauthorized r] ++ map unauthorized rs ++
  [StorageSettled 0] ++ map unauthorized late ++ [StorageSettled 0].

(** [!refreshToken]: the key is absent or holds the empty string. *)
Definition no_refresh_token (s : gmap string string) : Prop :=
  getItem REFRESH_TOKEN s = None ∨ getItem REFRESH_TOKEN s = Some "".

End Api.

(** ** The authentication store (zustand) *)
Module AuthStore.
Import Storage.

Record AuthTokens := mkAuthTokens {
  accessToken : string;
  refreshToken : string;
}.

(** The store keeps the user as an object and persists it as JSON text;
    only that text matters here. *)
Record User := mkUser { user_json : string }.

Record AuthState := mkAuthState {
  user : option User;
  tokens : option AuthTokens;
  isAuthenticated : bool;
  isLoading : bool;
  error : option string;
}.

Definition initial : AuthState :=
  {| user := None; tokens := None; isAuthenticated := false;
     isLoading := true; error := None |}.

(** An awaited promise either rejects with an error or yields a value. *)
Definition try_catch {A : Type} (body : Api.Err + A)
    (handler : Api.Err → Api.Err + A) : Api.Err + A :=
  match body with
  | inl e => handler e
  | inr a => inr a
  end.

(** [logout]: [server] is how [authService.logout()] settled.  The
    [catch] block is empty; [set] merges the listed fields into the state
    and leaves [isLoading] as it was.  The result is [inl e] when the
    promise of [logout] rejects with [e]. *)
Definition logout (server : Api.Err + unit) (st : AuthState)
    (s : gmap string string) : Api.Err + AuthState * gmap string string :=
  match try_catch server (fun _ => inr ()) with
  | inl e => inl e
  | inr _ =>
      let s' := multiRemove [AUTH_TOKEN; REFRESH_TOKEN; USER_DATA] s in
      inr ({| user := None; tokens := None; isAuthenticated := false;
              isLoading := isLoading st; error := None |}, s')
  end.

(** *** The other actions of the store *)

(** What the store reads of the error an API call rejects with:
    [error.response?.data?.error], [error.response?.data?.email?.[0]] and
    [error.message]. *)
Record ApiError := mkApiError {
  data_error : option string;
  data_email0 : option string;
  err_message : option string;
}.

(** [a || b] for an optional string [a]: absent and empty are falsy. *)
Definition or_else (a : option string) (b : string) : string :=
  match a with
  | Some v => if String.eqb v "" then b else v
  | None => b
  end.

Definition nonempty (v : string) : bool := negb (String.eqb v "").

Record AuthResponse := mkAuthResponse {
  res_user : User;
  res_tokens : AuthTokens;
}.

Definition JSON_stringify (u : User) : string := user_json u.

(** Storing a session, as [login] and [register] both do. *)
Definition store_session (res : AuthResponse) (s : gmap string string)
  : gmap string string :=
  setItem USER_DATA (JSON_stringify (res_user res))
    (setItem REFRESH_TOKEN (refreshToken (res_tokens res))
       (setItem AUTH_TOKEN (accessToken (res_tokens res)) s)).

(** [login] and [register] differ in the message they derive from a
    failure.  The result carries the message of the [Error] the promise
    rejects with, if it does. *)
Definition sign_in (message_of : ApiError → string)
    (server : ApiError + AuthResponse) (st : AuthState)
    (s : gmap string string) : option string * AuthState * gmap string string :=
  match server with
  | inr res =>
      (None,
       {| user := Some (res_user res); tokens := Some (res_tokens res);
          isAuthenticated := true; isLoading := false; error := None |},
       store_session res s)
  | inl e =>
      (Some (message_of e),
       {| user := user st; tokens := tokens st;
          isAuthenticated := isAuthenticated st; isLoading := false;
          error := Some (message_of e) |},
       s)
  end.

Definition login_message (e : ApiError) : string :=
  or_else (data_error e) (or_else (err_message e) "Login failed").

Definition register_message (e : ApiError) : string :=
  or_else (data_error e)
    (or_else (data_email0 e) (or_else (err_message e) "Registration failed")).

Definition login := sign_in login_message.
Definition register := sign_in register_message.

(** [refreshUser]: [server] is the user [getMe] returned, if it did; a
    failure is swallowed. *)
Definition refreshUser (server : option User) (st : AuthState)
    (s : gmap string string) : AuthState * gmap string string :=
  match server with
  | Some u =>
      ({| user := Some u; tokens := tokens st;
          isAuthenticated := isAuthenticated st; isLoading := isLoading st;
          error := error st |},
       setItem USER_DATA (JSON_stringify u) s)
  | None => (st, s)
  end.

Definition stop_loading (st : AuthState) : AuthState :=
  {| user := user st; tokens := tokens st;
     isAuthenticated := isAuthenticated st; isLoading := false;
     error := error st |}.

Section Json.
(** [JSON.parse] on the stored user text; [None] when it throws. *)
Context (JSON_parse : string → option User).

(** [restoreSession]: the boolean tells whether the background
    [refreshUser] was started. *)
Definition restoreSession (st : AuthState) (s : gmap string string)
  : AuthState * bool :=
  match getItem AUTH_TOKEN s, getItem REFRESH_TOKEN s, getItem USER_DATA s with
  | Some token, Some refresh, Some userData =>
      if nonempty token && nonempty refresh && nonempty userData then
        match JSON_parse userData with
        | Some u =>
            ({| user := Some u;
                tokens := Some {| accessToken := token; refreshToken := refresh |};
                isAuthenticated := true; isLoading := false;
                error := error st |}, true)
        | None => (stop_loading st, false)
        end
      else (stop_loading st, false)
  | _, _, _ => (stop_loading st, false)
  end.

End Json.

(** The parser of the sample runs: every text parses. *)
Definition parse_any (v : string) : option User := Some (mkUser v).

Definition sample_response : AuthResponse :=
  {| res_user := mkUser "{}";
     res_tokens := {| accessToken := "A1"; refreshToken := "R1" |} |}.

End AuthStore.

(** ** [Array.prototype.sort]

    The comparator returns a number; [a] is placed before [b] when it is
    negative, after when it is positive, and the sort is stable when it is
    zero.  Numbers that reach the client come from JSON, hence are finite,
    and are embedded as rationals: the sign of a difference of two finite
    doubles is the sign of the exact difference. *)
Module JsArray.
Section Sort.
Context {A : Type} (compareFn : A → A → Q).

Fixpoint insert (x : A) (l : list A) : list A :=
  match l with
  | [] => [x]
  | y :: l' =>
      if Qle_bool (compareFn x y) 0 then x :: y :: l'
      else y :: insert x l'
  end.

Fixpoint sort (l : list A) : list A :=
  match l with
  | [] => []
  | x :: l' => insert x (sort l')
  end.
End Sort.

(** [x || 0] for an optional number. *)
Definition or_zero (x : option Q) : Q := default 0%Q x.

(** The comparator [(a, b) => key(b) - key(a)]. *)
Definition descending {A : Type} (key : A → Q) (a b : A) : Q :=
  key b - key a.

(** Membership in the class of the elements whose key equals [k]. *)
Definition same_key {A : Type} (key : A → Q) (k : Q) (a : A) : bool :=
  Qeq_bool (key a) k.
(** The comparator [(a, b) => key(a) - key(b)]. *)
Definition ascending {A : Type} (key : A → Q) (a b : A) : Q :=
  key a - key b.
End JsArray.

Inductive Recommendation := excellent | good | fair | poor.

(** ** Flight results screen *)
Module FlightResultsScreen.
Import JsArray.

Record GoalEvaluation := mkGoalEvaluation {
  total_utility : Q;
  budget_constraint_met : bool;
  price_score : Q;
  duration_score : Q;
  stops_score : Q;
  recommendation : Recommendation;
}.

Record Flight := mkFlight {
  id : nat;
  duration_minutes : option Q;
  price : Q;
  stops : Q;
  goal_evaluation : option GoalEvaluation;
}.

Inductive SortOption := by_price | by_duration | by_score | by_stops.

Definition utility (f : Flight) : Q :=
  or_zero (total_utility <$> goal_evaluation f).

Definition compareFn (sortBy : SortOption) (a b : Flight) : Q :=
  match sortBy with
  | by_price => price a - price b
  | by_duration => or_zero (duration_minutes a) - or_zero (duration_minutes b)
  | by_stops => stops a - stops b
  | by_score => utility b - utility a
  end.

Definition sortedResults (sortBy : SortOption) (flightResults : list Flight)
  : list Flight :=
  sort (compareFn sortBy) flightResults.

(** The ranking of the specification: utility descending, ties broken by
    ascending price (remaining ties in any order). *)
Definition ranked_before (a b : Flight) : Prop :=
  (utility b < utility a)%Q ∨ (utility a == utility b ∧ price a <= price b)%Q.

Definition ranked_as_specified (l : list Flight) : Prop :=
  StronglySorted ranked_before l.

Definition scored (n : nat) (p u : Q) : Flight :=
  {| id := n; duration_minutes := None; price := p; stops := 0;
     goal_evaluation :=
       Some {| total_utility := u; budget_constraint_met := true;
               price_score := 0; duration_score := 0; stops_score := 0;
               recommendation := fair |} |}.

(** The quantity each ordering sorts by, ascending: the price, the duration
    (0 when absent), the number of stops, or the negated utility. *)
Definition sort_key (sortBy : SortOption) (f : Flight) : Q :=
  match sortBy with
  | by_price => price f
  | by_duration => or_zero (duration_minutes f)
  | by_stops => stops f
  | by_score => - utility f
  end.

End FlightResultsScreen.

(** ** Hotel results screen *)
Module HotelResultsScreen.
Import JsArray.

Record UtilityScore := mkUtilityScore {
  total_score : Q;
  price_value : Q;
  location_score : Q;
  rating_score : Q;
  amenities_score : Q;
  recommendation : Recommendation;
}.

Record Hotel := mkHotel {
  id : nat;
  rating : Q;
  stars : Q;
  price_per_night : Q;
  utility_score : option UtilityScore;
}.

Inductive SortOption := by_score | by_price | by_rating | by_stars.

Definition utility (h : Hotel) : Q :=
  or_zero (total_score <$> utility_score h).

Definition compareFn (sortBy : SortOption) (a b : Hotel) : Q :=
  match sortBy with
  | by_price => price_per_night a - price_per_night b
  | by_rating => rating b - rating a
  | by_stars => stars b - stars a
  | by_score => utility b - utility a
  end.

Definition sortedResults (sortBy : SortOption) (hotelResults : list Hotel)
  : list Hotel :=
  sort (compareFn sortBy) hotelResults.

(** The quantity each ordering sorts by, ascending: the price per night, or
    the negated rating, stars or utility. *)
Definition sort_key (sortBy : SortOption) (h : Hotel) : Q :=
  match sortBy with
  | by_price => price_per_night h
  | by_rating => - rating h
  | by_stars => - stars h
  | by_score => - utility h
  end.

End HotelResultsScreen.

(** ** JavaScript strings

    Sequences of UTF-16 code units.  [trim] removes the white space and line
    terminator code points of ECMAScript from both ends. *)
Module JsString.

Definition js_string := list N.

Definition lit (s : string) : js_string :=
  map Ascii.N_of_ascii (String.list_ascii_of_string s).

Definition white_space_codes : list N :=
  [9; 10; 11; 12; 13; 32; 160; 5760;
   8192; 8193; 8194; 8195; 8196; 8197; 8198; 8199; 8200; 8201; 8202;
   8232; 8233; 8239; 8287; 12288; 65279]%N.

Definition is_white_space (c : N) : bool :=
  existsb (N.eqb c) white_space_codes.

Fixpoint trimStart (s : js_string) : js_string :=
  match s with
  | [] => []
  | c :: s' => if is_white_space c then trimStart s' else s
  end.

Definition trimEnd (s : js_string) : js_string :=
  rev (trimStart (rev s)).

Definition trim (s : js_string) : js_string := trimEnd (trimStart s).

(** Truthiness of a string: non-empty. *)
Definition truthy (s : js_string) : bool :=
  match s with [] => false | _ => true end.

End JsString.

(** ** The [TravelChat] component *)
Module TravelChat.
Import JsString.

Inductive Role := user | assistant | system.

Definition Role_eqb (a b : Role) : bool :=
  match a, b with
  | user, user | assistant, assistant | system, system => true
  | _, _ => false
  end.

(** A chat message; the [timestamp] field is display-only and left out. *)
Record ChatMessage := mkChatMessage {
  role : Role;
  content : js_string;
}.

(** Every field is optional; [budget] may also be an explicit [null]. *)
Record ExtractedParams := mkExtractedParams {
  origin : option js_string;
  destination : option js_string;
  departure_date : option js_string;
  return_date : option js_string;
  passengers : option Q;
  budget : option (option Q);
  cuisine : option js_string;
}.

(** The object literal [{}]. *)
Definition empty_params : ExtractedParams :=
  {| origin := None; destination := None; departure_date := None;
     return_date := None; passengers := None; budget := None;
     cuisine := None |}.

(** Body of the POST to [/api/agents/chat]. *)
Record ChatRequest := mkChatRequest {
  message : js_string;
  conversation : list ChatMessage;
  extracted_params : ExtractedParams;
  confirmed : bool;
}.

(** The planner's result is passed through to [onPlanReady] unread. *)
Record PlanningResult := mkPlanningResult { plan_json : js_string }.

(** The JSON the endpoint answers with; absent members are [None]. *)
Record ChatData := mkChatData {
  success : bool;
  reply : js_string;
  data_extracted_params : option ExtractedParams;
  params_complete : option bool;
  error : option js_string;
  planning_result : option PlanningResult;
}.

Inductive Effect :=
| Fetch (body : ChatRequest)
| SpeakText (text : js_string)
| OnPlanReady (result : PlanningResult).

Inductive Settled :=
| Fulfilled
| Rejected (error_name : string).

(** The component state ([useState] cells). *)
Record State := mkState {
  messages : list ChatMessage;
  input : js_string;
  loading : bool;
  planning : bool;
  extractedParams : ExtractedParams;
  paramsComplete : bool;
  voiceEnabled : bool;
}.

Definition initial (greeting : js_string) (initialVoiceEnabled : bool) : State :=
  {| messages := [mkChatMessage assistant greeting]; input := [];
     loading := false; planning := false; extractedParams := empty_params;
     paramsComplete := false; voiceEnabled := initialVoiceEnabled |}.

Definition push_message (m : ChatMessage) (st : State) : State :=
  {| messages := messages st ++ [m]; input := input st;
     loading := loading st; planning := planning st;
     extractedParams := extractedParams st;
     paramsComplete := paramsComplete st; voiceEnabled := voiceEnabled st |}.

Definition setLoading (b : bool) (st : State) : State :=
  {| messages := messages st; input := input st; loading := b;
     planning := planning st; extractedParams := extractedParams st;
     paramsComplete := paramsComplete st; voiceEnabled := voiceEnabled st |}.

Definition setPlanning (b : bool) (st : State) : State :=
  {| messages := messages st; input := input st; loading := loading st;
     planning := b; extractedParams := extractedParams st;
     paramsComplete := paramsComplete st; voiceEnabled := voiceEnabled st |}.

Definition setInput (s : js_string) (st : State) : State :=
  {| messages := messages st; input := s; loading := loading st;
     planning := planning st; extractedParams := extractedParams st;
     paramsComplete := paramsComplete st; voiceEnabled := voiceEnabled st |}.

Definition setExtractedParams (p : ExtractedParams) (st : State) : State :=
  {| messages := messages st; input := input st; loading := loading st;
     planning := planning st; extractedParams := p;
     paramsComplete := paramsComplete st; voiceEnabled := voiceEnabled st |}.

Definition setParamsComplete (b : bool) (st : State) : State :=
  {| messages := messages st; input := input st; loading := loading st;
     planning := planning st; extractedParams := extractedParams st;
     paramsComplete := b; voiceEnabled := voiceEnabled st |}.

(** A call of an async function either returns before its first [await]
    or suspends on the [fetch] it has just issued.  [voice] is the value of
    [voiceEnabled] the closure captured. *)
Inductive Call :=
| Returned (st : State) (result : Settled)
| Awaiting (st : State) (body : ChatRequest) (voice : bool).

Definition speak (voice : bool) (text : js_string) : list Effect :=
  if voice then [SpeakText text] else [].

(** [sendMessage], up to the [await fetch]. *)
Definition sendMessage (text : js_string) (st : State) : Call :=
  if negb (truthy (trim text)) then Returned st Fulfilled
  else
    let userMsg := mkChatMessage user (trim text) in
    Awaiting
      (setLoading true (setInput [] (push_message userMsg st)))
      {| message := trim text;
         conversation :=
           List.filter (fun m => negb (Role_eqb (role m) system)) (messages st);
         extracted_params := extractedParams st;
         confirmed := false |}
      (voiceEnabled st).

Definition could_not_reach : js_string :=
  lit "Sorry, I could not reach the server. Please try again.".

Definition template (v : option js_string) : js_string :=
  default (lit "undefined") v.

(** [sendMessage], from the [await] on: [response] is [None] when [fetch]
    or [response.json()] rejected, and the parsed body otherwise.  The
    updates apply to the state current at that time. *)
Definition sendMessage_settle (voice : bool) (response : option ChatData)
    (st : State) : State * list Effect * Settled :=
  match response with
  | Some data =>
      if success data then
        (setLoading false
           (setParamsComplete (default false (params_complete data))
              (setExtractedParams
                 (default empty_params (data_extracted_params data))
                 (push_message (mkChatMessage assistant (reply data)) st))),
         speak voice (reply data), Fulfilled)
      else
        (setLoading false
           (push_message
              (mkChatMessage assistant
                 (lit "Sorry, I encountered an error: " ++ template (error data)
                    ++ lit ". Please try again.")) st),
         [], Fulfilled)
  | None =>
      (setLoading false (push_message (mkChatMessage assistant could_not_reach) st),
       [], Fulfilled)
  end.

Definition planning_started : js_string :=
  lit "Starting AI travel planning with your parameters...".
Definition trip_planned : js_string :=
  lit "Your trip has been planned! Scroll down to see the full results.".
Definition planner_unreachable : js_string :=
  lit "Failed to connect to the planner. Please try again.".

(** [handleConfirmPlan], up to the [await fetch]: no condition is tested. *)
Definition handleConfirmPlan (st : State) : Call :=
  Awaiting
    (push_message (mkChatMessage system planning_started) (setPlanning true st))
    {| message := []; conversation := [];
       extracted_params := extractedParams st; confirmed := true |}
    (voiceEnabled st).

Definition or_unknown (e : option js_string) : js_string :=
  match e with
  | Some s => if truthy s then s else lit "Unknown error"
  | None => lit "Unknown error"
  end.

Definition handleConfirmPlan_settle (voice : bool) (response : option ChatData)
    (st : State) : State * list Effect * Settled :=
  match response with
  | Some data =>
      match success data, planning_result data with
      | true, Some result =>
          (setPlanning false
             (push_message (mkChatMessage assistant trip_planned) st),
           OnPlanReady result :: speak voice trip_planned, Fulfilled)
      | _, _ =>
          (setPlanning false
             (push_message
                (mkChatMessage assistant
                   (lit "Planning failed: " ++ or_unknown (error data)
                      ++ lit ". Please try again.")) st),
           [], Fulfilled)
      end
  | None =>
      (setPlanning false
         (push_message (mkChatMessage assistant planner_unreachable) st),
       [], Fulfilled)
  end.

(** The confirm panel is rendered under [paramsComplete && !planning]. *)
Definition confirm_button_rendered (st : State) : bool :=
  paramsComplete st && negb (planning st).


(** [handleSubmit] (and the Enter key). *)
Definition handleSubmit (st : State) : option Call :=
  if truthy (trim (input st)) && negb (loading st)
  then Some (sendMessage (input st) st) else None.


(** *** The dialogue contract of the specification, for comparison *)

Definition or_prior {A : Type} (latest prior : option A) : option A :=
  match latest with
  | Some v => Some v
  | None => prior
  end.

(** The field-level merge the specification describes: a field the latest
    extraction supplies overwrites, any other keeps its prior value. *)
Definition spec_merge (prior latest : ExtractedParams) : ExtractedParams :=
  {| origin := or_prior (origin latest) (origin prior);
     destination := or_prior (destination latest) (destination prior);
     departure_date := or_prior (departure_date latest) (departure_date prior);
     return_date := or_prior (return_date latest) (return_date prior);
     passengers := or_prior (passengers latest) (passengers prior);
     budget := or_prior (budget latest) (budget prior);
     cuisine := or_prior (cuisine latest) (cuisine prior) |}.

(** "An empty or blank utterance is rejected with [EmptyInput]". *)
Definition rejects_blank_input : Prop :=
  ∀ text st, Forall (λ c, is_white_space c = true) text →
    ∃ st', sendMessage text st = Returned st' (Rejected "EmptyInput").

(** "A failed extraction call leaves turns, extracted fields and the
    completeness flag as they were before the submission". *)
Definition failure_leaves_state : Prop :=
  ∀ text st st1 body voice,
    sendMessage text st = Awaiting st1 body voice →
    let st2 := (sendMessage_settle voice None st1).1.1 in
    messages st2 = messages st ∧
    extractedParams st2 = extractedParams st ∧
    paramsComplete st2 = paramsComplete st.

(** "After a successful submission the extracted set is the merge of the
    prior set with the latest extraction". *)
Definition merges_monotonically : Prop :=
  ∀ voice data latest st,
    success data = true → data_extracted_params data = Some latest →
    extractedParams (sendMessage_settle voice (Some data) st).1.1 =
    spec_merge (extractedParams st) latest.


(** Sample values. *)
Definition only_origin : ExtractedParams :=
  {| origin := Some (lit "New York"); destination := None;
     departure_date := None; return_date := None; passengers := None;
     budget := None; cuisine := None |}.

Definition only_destination : ExtractedParams :=
  {| origin := None; destination := Some (lit "Paris");
     departure_date := None; return_date := None; passengers := None;
     budget := None; cuisine := None |}.

Definition extraction_reply (p : ExtractedParams) (complete : bool) : ChatData :=
  {| success := true; reply := lit "Noted."; data_extracted_params := Some p;
     params_complete := Some complete; error := None;
     planning_result := None |}.


Definition ready_to_plan : State :=
  {| messages := [mkChatMessage assistant (lit "Hi!")]; input := [];
     loading := false; planning := false; extractedParams := only_origin;
     paramsComplete := true; voiceEnabled := false |}.

(** *** Other handlers of the component *)

(** The state a call leaves behind when it returns or suspends. *)
Definition call_state (c : Call) : State :=
  match c with
  | Returned st _ => st
  | Awaiting st _ _ => st
  end.

(** The "Change Details" button: [setParamsComplete(false)], then
    [sendMessage] with a fixed text. *)
Definition change_something : js_string := lit "I'd like to change something".

Definition changeDetails (st : State) : Call :=
  sendMessage change_something (setParamsComplete false st).

(** A tap on "Change Details": the button sits in the confirm panel, which
    is rendered under [paramsComplete && !planning]; [loading] plays no
    part. *)
Definition click_change_details (st : State) : option Call :=
  if confirm_button_rendered st then Some (changeDetails st) else None.

Definition is_plan_ready (e : Effect) : bool :=
  match e with
  | OnPlanReady _ => true
  | _ => false
  end.

End TravelChat.

(** ** Utility scoring engine

    The clients only display the [total_utility], [budget_constraint_met]
    and [recommendation] fields they receive; the engine that computes them
    is not part of the client sources. *)
Module Scoring.

Inductive Criterion :=
| c_price | c_duration | c_stops | c_location | c_rating | c_amenities.

(** Modelled from the spec: the [GoalProfile] record of the data model
    (the server-side type is not among the client sources). *)
Record GoalProfile := mkGoalProfile {
  budgetMax : option Q;
  maxStops : option Z;
  preferredDurationMinutes : option Q;
  minRating : option Q;
  desiredAmenities : list string;
  weights : Criterion → Q;
}.

(** Modelled from the spec: the flight and hotel candidates of the data
    model. *)
Record FlightCandidate := mkFlightCandidate {
  price : Q;
  durationMinutes : Q;
  stops : nat;
  availableSeats : nat;
}.

(** Modelled from the spec: the hotel candidate of the data model. *)
Record HotelCandidate := mkHotelCandidate {
  pricePerNight : Q;
  rating : Q;
  distanceFromCenterKm : Q;
  amenities : list string;
}.

(** Modelled from the spec: [Candidate], the union of the two. *)
Inductive Candidate :=
| FlightC (f : FlightCandidate)
| HotelC (h : HotelCandidate).

(** Modelled from the spec: the [ScoreBreakdown] record of the data model. *)
Record ScoreBreakdown := mkScoreBreakdown {
  componentScores : list (Criterion * Q);
  totalUtility : Q;
  budgetConstraintMet : bool;
  recommendation : Recommendation;
}.

(** Modelled from the spec: what the engine takes from the result set and
    the specification leaves open, namely the normalised price and duration
    ranks of the candidate and the hotel [priceValue] component. *)
Record ResultSetContext := mkResultSetContext {
  normalizedPriceRank : Q;
  normalizedDurationRank : Q;
  priceValue : Q;
}.

(** Modelled from the spec: [clamp(x, lo, hi)]. *)
Definition clamp (x lo hi : Q) : Q :=
  if Qle_bool x lo then lo else if Qle_bool hi x then hi else x.

(** Modelled from the spec: the default weights of flights and hotels. *)
Definition defaultFlightWeights (c : Criterion) : Q :=
  match c with
  | c_price => 1 # 2
  | c_duration => 1 # 5
  | c_stops => 3 # 10
  | _ => 0
  end.

Definition defaultHotelWeights (c : Criterion) : Q :=
  match c with
  | c_price => 3 # 10
  | c_location => 1 # 4
  | c_rating => 1 # 4
  | c_amenities => 1 # 5
  | _ => 0
  end.

(** Modelled from the spec: the flight scoring components of section 4.2. *)
Definition priceScore (ctx : ResultSetContext) (g : GoalProfile) (p : Q) : Q :=
  match budgetMax g with
  | Some b => clamp (1 - p / (b * (3 # 2))) 0 1
  | None => 1 - normalizedPriceRank ctx
  end.

(** Modelled from the spec: [durationScore] of section 4.2. *)
Definition durationScore (ctx : ResultSetContext) (g : GoalProfile) (d : Q) : Q :=
  match preferredDurationMinutes g with
  | Some pd => clamp (1 - Qabs (d - pd) / pd) 0 1
  | None => 1 - normalizedDurationRank ctx
  end.

(** Modelled from the spec: [stopsScore = 1 / (1 + stops)]. *)
Definition stopsScore (n : nat) : Q := 1 / (1 + inject_Z (Z.of_nat n)).

(** Modelled from the spec: [budgetConstraintMet = budgetMax is null OR
    price <= budgetMax]; for a hotel the price is the price per night. *)
Definition budget_met (g : GoalProfile) (p : Q) : bool :=
  match budgetMax g with
  | Some b => Qle_bool p b
  | None => true
  end.

(** Modelled from the spec: the hotel scoring components of section 4.2. *)
Definition locationScore (km : Q) : Q := clamp (1 - km / 10) 0 1.
(** Modelled from the spec: [ratingScore = rating / 5]. *)
Definition ratingScore (r : Q) : Q := r / 5.

(** Modelled from the spec: [amenitiesScore], the share of the desired
    amenities the hotel offers. *)
Definition count_common (desired have : list string) : nat :=
  length (List.filter (fun a => existsb (String.eqb a) have) desired).

Definition amenitiesScore (desired have : list string) : Q :=
  inject_Z (Z.of_nat (count_common desired have)) /
  inject_Z (Z.of_nat (Nat.max 1 (length desired))).

(** Modelled from the spec: the weighted sum of the component scores. *)
Definition weighted_sum (w : Criterion → Q) (cs : list (Criterion * Q)) : Q :=
  foldr (fun '(c, x) acc => (w c * x + acc)%Q) 0%Q cs.

(** Modelled from the spec: the tier assignment rule of section 4.2,
    evaluated in order, first match wins. *)
Definition tier (met : bool) (u : Q) : Recommendation :=
  if negb met then poor
  else if Qle_bool (4 # 5) u then excellent
  else if Qle_bool (3 # 5) u then good
  else if Qle_bool (2 # 5) u then fair
  else poor.

(** Modelled from the spec: the component scores of a candidate. *)
Definition components (ctx : ResultSetContext) (c : Candidate) (g : GoalProfile)
  : list (Criterion * Q) :=
  match c with
  | FlightC f =>
      [(c_price, priceScore ctx g (price f));
       (c_duration, durationScore ctx g (durationMinutes f));
       (c_stops, stopsScore (stops f))]
  | HotelC h =>
      [(c_price, priceValue ctx);
       (c_location, locationScore (distanceFromCenterKm h));
       (c_rating, ratingScore (rating h));
       (c_amenities, amenitiesScore (desiredAmenities g) (amenities h))]
  end.

(** Modelled from the spec: the price the budget constraint is tested on. *)
Definition candidate_price (c : Candidate) : Q :=
  match c with
  | FlightC f => price f
  | HotelC h => pricePerNight h
  end.

(** Modelled from the spec: [score(candidate, goalProfile)] of the
    scoring engine, which is not among the client sources. *)
Definition score (ctx : ResultSetContext) (c : Candidate) (g : GoalProfile)
  : ScoreBreakdown :=
  let cs := components ctx c g in
  let u := weighted_sum (weights g) cs in
  let met := budget_met g (candidate_price c) in
  {| componentScores := cs; totalUtility := u;
     budgetConstraintMet := met; recommendation := tier met u |}.

(** The flight scenario of the specification. *)
Definition spec_flight (p : Q) : Candidate :=
  FlightC {| price := p; durationMinutes := 300; stops := 0;
             availableSeats := 9 |}.

Definition spec_profile : GoalProfile :=
  {| budgetMax := Some 500%Q; maxStops := None;
     preferredDurationMinutes := Some 300%Q; minRating := None;
     desiredAmenities := []; weights := defaultFlightWeights |}.

Definition no_ranks : ResultSetContext :=
  {| normalizedPriceRank := 0; normalizedDurationRank := 0; priceValue := 0 |}.

End Scoring.

(** ** The notification store of the web client (zustand) *)
Module NotificationStore.

(** A notification, as far as the store reads it: its [id] and [read]
    flag; the rest of the object is carried along as [payload]. *)
Record Notification := mkNotification {
  id : string;
  read : bool;
  payload : string;
}.

Record State := mkState {
  notifications : list Notification;
  unreadCount : Z;
}.

Definition initial : State := {| notifications := []; unreadCount := 0 |}.

(** [{ ...n, read: true }] *)
Definition as_read (n : Notification) : Notification :=
  {| id := id n; read := true; payload := payload n |}.

(** [notification && !notification.read] for the first notification with
    the given id. *)
Definition wasUnread (i : string) (l : list Notification) : bool :=
  match List.find (λ n, String.eqb (id n) i) l with
  | Some n => negb (read n)
  | None => false
  end.

Definition addNotification (n : Notification) (st : State) : State :=
  {| notifications := n :: notifications st;
     unreadCount := if read n then unreadCount st else (unreadCount st + 1)%Z |}.

Definition markAsRead (i : string) (st : State) : State :=
  {| notifications :=
       map (λ n, if String.eqb (id n) i then as_read n else n) (notifications st);
     unreadCount := if wasUnread i (notifications st)
                    then (unreadCount st - 1)%Z else unreadCount st |}.

Definition markAllAsRead (st : State) : State :=
  {| notifications := map as_read (notifications st); unreadCount := 0 |}.

Definition removeNotification (i : string) (st : State) : State :=
  {| notifications :=
       List.filter (λ n, negb (String.eqb (id n) i)) (notifications st);
     unreadCount := if wasUnread i (notifications st)
                    then (unreadCount st - 1)%Z else unreadCount st |}.

(** The number of unread notifications in a list. *)
Definition unread (l : list Notification) : Z :=
  Z.of_nat (length (List.filter (λ n, negb (read n)) l)).

(** The counter agrees with the list. *)
Definition consistent (st : State) : Prop :=
  unreadCount st = unread (notifications st).

(** No two notifications share an id. *)
Definition distinct (st : State) : Prop :=
  NoDup (map id (notifications st)).

End NotificationStore.

(** ** The notification store of the mobile app (zustand) *)
Module MobileNotificationStore.

(** [string | number] *)
Inductive Id :=
| Str (s : string)
| Num (n : Z).

(** [===] on ids. *)
Definition Id_eqb (a b : Id) : bool :=
  match a, b with
  | Str s, Str t => String.eqb s t
  | Num n, Num m => Z.eqb n m
  | _, _ => false
  end.

Record Notification := mkNotification {
  id : Id;
  read : bool;
  payload : string;
}.

Record State := mkState {
  notifications : list Notification;
  unreadCount : Z;
}.

Definition initial : State := {| notifications := []; unreadCount := 0 |}.

Definition as_read (n : Notification) : Notification :=
  {| id := id n; read := true; payload := payload n |}.

Definition unread (l : list Notification) : Z :=
  Z.of_nat (length (List.filter (λ n, negb (read n)) l)).

Definition setNotifications (l : list Notification) (st : State) : State :=
  {| notifications := l; unreadCount := unread l |}.

Definition addNotification (n : Notification) (st : State) : State :=
  {| notifications := n :: notifications st;
     unreadCount := (unreadCount st + (if read n then 0 else 1))%Z |}.

(** The counter is lowered whether or not a notification was found. *)
Definition markAsRead (i : Id) (st : State) : State :=
  {| notifications :=
       map (λ n, if Id_eqb (id n) i then as_read n else n) (notifications st);
     unreadCount := Z.max 0 (unreadCount st - 1) |}.

Definition markAllAsRead (st : State) : State :=
  {| notifications := map as_read (notifications st); unreadCount := 0 |}.

Definition wasUnread (i : Id) (l : list Notification) : bool :=
  match List.find (λ n, Id_eqb (id n) i) l with
  | Some n => negb (read n)
  | None => false
  end.

Definition removeNotification (i : Id) (st : State) : State :=
  {| notifications :=
       List.filter (λ n, negb (Id_eqb (id n) i)) (notifications st);
     unreadCount := if wasUnread i (notifications st)
                    then Z.max 0 (unreadCount st - 1) else unreadCount st |}.

Definition clearAll (st : State) : State :=
  {| notifications := []; unreadCount := 0 |}.

Definition consistent (st : State) : Prop :=
  unreadCount st = unread (notifications st).

Definition distinct (st : State) : Prop :=
  NoDup (map id (notifications st)).

End MobileNotificationStore.

(** ** Lists of records with an id and a read flag

    The list operations the two notification stores share: the count of
    unread records, the flag of the first record with a given id, marking
    the records with a given id, and dropping them. *)
Module ById.

Section ById.
Context {A K : Type} (idf : A → K) (readf : A → bool) (mark : A → A).
Context (eqb : K → K → bool).

Definition count_unread (l : list A) : Z :=
  Z.of_nat (length (List.filter (λ n, negb (readf n)) l)).

Definition first_unread (i : K) (l : list A) : bool :=
  match List.find (λ n, eqb (idf n) i) l with
  | Some n => negb (readf n)
  | None => false
  end.

Definition mark_one (i : K) (l : list A) : list A :=
  map (λ n, if eqb (idf n) i then mark n else n) l.

Definition drop_one (i : K) (l : list A) : list A :=
  List.filter (λ n, negb (eqb (idf n) i)) l.

End ById.

End ById.

(** ** Display formatters of the web client *)
Module Formatters.
Import JsString.

(** [\d] and [[A-Z]] on code units. *)
Definition is_digit (c : N) : bool := (48 <=? c)%N && (c <=? 57)%N.
Definition is_upper (c : N) : bool := (65 <=? c)%N && (c <=? 90)%N.

(** [formatFlightNumber]: a match of [/^([A-Z]{2})(\d+)$/] gets a space
    between the two groups, anything else is returned as it is. *)
Definition formatFlightNumber (flightNumber : js_string) : js_string :=
  match flightNumber with
  | a :: b :: d :: rest =>
      if is_upper a && is_upper b && forallb is_digit (d :: rest)
      then [a; b] ++ lit " " ++ d :: rest
      else flightNumber
  | _ => flightNumber
  end.

(** [formatPhoneNumber]: the digits of the input are kept
    ([replace(/\D/g, '')]); ten digits are laid out as [(ddd) ddd-dddd],
    otherwise the input is returned as it is. *)
Definition formatPhoneNumber (phone : js_string) : js_string :=
  let cleaned := List.filter is_digit phone in
  if Nat.eqb (length cleaned) 10 then
    lit "(" ++ take 3 cleaned ++ lit ") " ++ take 3 (drop 3 cleaned) ++
    lit "-" ++ drop 6 cleaned
  else phone.

(** [s.slice(0, end)] for an integer [end]: a negative [end] counts from
    the end of the string. *)
Definition slice_to (end_ : Z) (s : js_string) : js_string :=
  let len := Z.of_nat (length s) in
  take (Z.to_nat (if (end_ <? 0)%Z then Z.max (len + end_) 0
                  else Z.min end_ len)) s.

(** [truncateText], for an integer [maxLength]. *)
Definition truncateText (text : js_string) (maxLength : Z) : js_string :=
  if (Z.of_nat (length text) <=? maxLength)%Z then text
  else slice_to maxLength text ++ lit "...".

End Formatters.

(** * Properties *)

(** ** Storage *)
Module StorageFacts.
Import Storage.

Lemma multiRemove_session_keys s k :
  k ∈ session_keys → getItem k (multiRemove session_keys s) = None.
Proof.
  unfold session_keys, getItem, multiRemove. intros Hk. cbn [foldr].
  repeat (apply elem_of_cons in Hk as [-> | Hk]);
    [| | | by apply elem_of_nil in Hk].
  - by rewrite lookup_delete_eq.
  - rewrite lookup_delete_ne by done. by rewrite lookup_delete_eq.
  - rewrite !lookup_delete_ne by done. by rewrite lookup_delete_eq.
Qed.

Lemma multiRemove_other s k :
  k ∉ session_keys → getItem k (multiRemove session_keys s) = getItem k s.
Proof.
  unfold session_keys, getItem, multiRemove. intros Hk. cbn [foldr].
  rewrite !lookup_delete_ne; [done | | |];
    intros E; apply Hk; rewrite <- E; set_solver.
Qed.

End StorageFacts.

(** ** The token-refresh interceptor *)
Module ApiFacts.
Import Storage Api.

Local Arguments getItem : simpl never.
Local Arguments setItem : simpl never.
Local Arguments multiRemove : simpl never.

Lemma run_app st evs1 evs2 :
  run st (evs1 ++ evs2) =
  '(st1, acts1) ← run st evs1;
  '(st2, acts2) ← run st1 evs2;
  Some (st2, acts1 ++ acts2).
Proof.
  revert st. induction evs1 as [| ev evs1 IH]; intros st; cbn [run app].
  - cbn. destruct (run st evs2) as [[st2 acts2] |]; reflexivity.
  - destruct (step st ev) as [[st1 acts1] |]; cbn; [| reflexivity].
    rewrite IH. destruct (run st1 evs1) as [[st1' acts1'] |]; cbn; [| reflexivity].
    destruct (run st1' evs2) as [[st2 acts2] |]; cbn; [| reflexivity].
    by rewrite app_assoc.
Qed.

Lemma step_coherent st ev st' acts :
  coherent st → step st ev = Some (st', acts) → coherent st'.
Proof.
  unfold coherent. intros Hc Hstep. destruct ev as [status config | h | h res | k v | ks];
    cbn in Hstep.
  - destruct (is_401 status && negb (_retry config)).
    + destruct (isRefreshing st) eqn:E; simplify_eq; cbn; [done |].
      eexists. rewrite Hc. reflexivity.
    + by simplify_eq.
  - destruct (isRefreshing st) eqn:E.
    + destruct Hc as [hd0 Hh]. rewrite Hh in Hstep.
      destruct h as [| h]; [| done]. cbn in Hstep.
      destruct (pc hd0); cbn in Hstep.
      * unfold enter_catch, set_handler in Hstep.
        repeat case_match; simplify_eq; cbn in *; try congruence;
          rewrite ?Hh; cbn; eauto.
      * done.
      * simplify_eq; cbn. rewrite ?E. eauto.
      * by simplify_eq.
      * by simplify_eq.
    + by rewrite Hc in Hstep.
  - destruct (isRefreshing st) eqn:E.
    + destruct Hc as [hd0 Hh]. rewrite Hh in Hstep.
      destruct h as [| h]; [| done]. cbn in Hstep.
      unfold enter_catch, set_handler in Hstep.
      repeat case_match; simplify_eq; cbn in *; try congruence;
          rewrite ?Hh; cbn; eauto.
    + by rewrite Hc in Hstep.
  - by simplify_eq.
  - by simplify_eq.
Qed.

Lemma run_coherent evs : ∀ st st' acts,
  coherent st → run st evs = Some (st', acts) → coherent st'.
Proof.
  induction evs as [| ev evs IH]; intros st st' acts Hc Hrun; cbn in Hrun.
  - by simplify_eq.
  - destruct (step st ev) as [[st1 acts1] |] eqn:Hs; [| done]. cbn in Hrun.
    destruct (run st1 evs) as [[st2 acts2] |] eqn:Hr; [| done]. cbn in Hrun.
    simplify_eq. eapply IH; [| exact Hr]. eapply step_coherent; eauto.
Qed.

Lemma idle_coherent st : idle st → coherent st.
Proof. intros (Hr & Hh & _). unfold coherent. by rewrite Hr. Qed.

Lemma coherent_in_flight st : coherent st → (refreshes_in_flight st ≤ 1)%nat.
Proof.
  unfold coherent, refreshes_in_flight. destruct (isRefreshing st).
  - intros [hd ->]. cbn. destruct (in_flight hd); cbn; lia.
  - intros ->. cbn. lia.
Qed.


Lemma step_unauthorized_busy st q :
  isRefreshing st = true → _retry q = false →
  step st (unauthorized q) = Some (enqueued [q] st, []).
Proof. intros Hr Hq. unfold unauthorized. cbn. by rewrite Hq, Hr. Qed.

Lemma step_unauthorized_idle st q :
  isRefreshing st = false → _retry q = false →
  step st (unauthorized q) =
  Some ({| isRefreshing := true; failedQueue := failedQueue st;
           storage := storage st;
           handlers := handlers st ++
                         [mkHandler (set_retry q) AwaitGetRefreshToken] |}, []).
Proof. intros Hr Hq. unfold unauthorized. cbn. by rewrite Hq, Hr. Qed.

Lemma run_enqueue rs : ∀ st,
  isRefreshing st = true → Forall (λ q, _retry q = false) rs →
  run st (map unauthorized rs) = Some (enqueued rs st, []).
Proof.
  induction rs as [| r rs IH]; intros st Hr Hrs; cbn [map run].
  - unfold enqueued. rewrite app_nil_r, <- Hr. by destruct st.
  - apply Forall_cons in Hrs as [Hq Hrs].
    rewrite step_unauthorized_busy by done. cbn.
    rewrite IH by done. cbn. unfold enqueued; cbn.
    by rewrite <- app_assoc.
Qed.

Lemma run_cons st ev evs :
  run st (ev :: evs) =
  '(st1, acts1) ← step st ev;
  '(st2, acts2) ← run st1 evs;
  Some (st2, acts1 ++ acts2).
Proof. reflexivity. Qed.

Lemma cycle_until_tokens_run st r rs1 rs2 rs3 rt a' r' :
  idle st →
  getItem REFRESH_TOKEN (storage st) = Some rt → rt ≠ "" →
  _retry r = false →
  Forall (λ q, _retry q = false) (rs1 ++ rs2 ++ rs3) →
  run st (cycle_until_tokens r rs1 rs2 rs3 a' r') =
  Some ({| isRefreshing := true; failedQueue := rs1 ++ rs2 ++ rs3;
           storage := storage st;
           handlers := [mkHandler (set_retry r) (AwaitSetAuthToken a' r')] |},
        [RefreshCall rt]).
Proof.
  intros (Hi & Hh & Hq) Hrt Hne Hr Hrs.
  apply Forall_app in Hrs as [H1 Hrs]. apply Forall_app in Hrs as [H2 H3].
  assert (Heqb : String.eqb rt "" = false) by by apply String.eqb_neq.
  unfold cycle_until_tokens. cbn [app].
  rewrite run_cons, step_unauthorized_idle by done.
  rewrite Hh, Hq. cbn [mbind option_bind app].
  rewrite run_app, run_enqueue by done. cbn [mbind option_bind].
  rewrite run_cons. cbn. rewrite Hrt, Heqb. cbn.
  rewrite run_app, run_enqueue by done. cbn [mbind option_bind].
  rewrite run_cons. cbn.
  rewrite run_enqueue by done.
  unfold enqueued, set_handler. cbn. by rewrite <- !app_assoc.
Qed.

Lemma cycle_first_write_run q s hd a' r' rs4 :
  pc hd = AwaitSetAuthToken a' r' →
  Forall (λ q, _retry q = false) rs4 →
  run {| isRefreshing := true; failedQueue := q; storage := s;
         handlers := [hd] |} (cycle_first_write rs4) =
  Some ({| isRefreshing := true; failedQueue := q ++ rs4;
           storage := setItem AUTH_TOKEN a' s;
           handlers := [mkHandler (originalRequest hd)
                                  (AwaitSetRefreshToken a' r')] |}, []).
Proof.
  intros Hpc Hrs. unfold cycle_first_write. cbn [app].
  rewrite run_cons. cbn. rewrite Hpc. cbn.
  by rewrite run_enqueue.
Qed.

Lemma cycle_second_write_run q s hd a' r' :
  pc hd = AwaitSetRefreshToken a' r' →
  run {| isRefreshing := true; failedQueue := q; storage := s;
         handlers := [hd] |} cycle_second_write =
  Some ({| isRefreshing := false; failedQueue := [];
           storage := setItem REFRESH_TOKEN r' s; handlers := [] |},
        map (λ q, Reissue (set_Authorization a' q)) q ++
        [Reissue (set_Authorization a' (originalRequest hd))]).
Proof.
  intros Hpc. unfold cycle_second_write. rewrite run_cons. cbn.
  rewrite Hpc. cbn. by rewrite app_nil_r.
Qed.

Lemma refresh_cycle_run st r rs1 rs2 rs3 rs4 rt a' r' :
  idle st →
  getItem REFRESH_TOKEN (storage st) = Some rt → rt ≠ "" →
  _retry r = false →
  Forall (λ q, _retry q = false) (rs1 ++ rs2 ++ rs3 ++ rs4) →
  run st (refresh_cycle r rs1 rs2 rs3 rs4 a' r') =
  Some ({| isRefreshing := false; failedQueue := [];
           storage := setItem REFRESH_TOKEN r'
                        (setItem AUTH_TOKEN a' (storage st));
           handlers := [] |},
        [RefreshCall rt] ++
        map (λ q, Reissue (set_Authorization a' q)) (rs1 ++ rs2 ++ rs3 ++ rs4) ++
        [Reissue (set_Authorization a' (set_retry r))]).
Proof.
  intros Hidle Hrt Hne Hr Hrs.
  apply Forall_app in Hrs as [H1 Hrs]. apply Forall_app in Hrs as [H2 Hrs].
  apply Forall_app in Hrs as [H3 H4].
  assert (H123 : Forall (λ q, _retry q = false) (rs1 ++ rs2 ++ rs3)).
  { by repeat (apply Forall_app; split). }
  unfold refresh_cycle.
  rewrite run_app, (cycle_until_tokens_run _ _ _ _ _ rt) by done.
  cbn [mbind option_bind].
  rewrite run_app, (cycle_first_write_run _ _ _ a' r') by done.
  cbn [mbind option_bind].
  rewrite (cycle_second_write_run _ _ _ a' r') by done.
  cbn. by rewrite <- !app_assoc.
Qed.

(** ** C1.  At most one refresh call is in flight in any state the
    interceptor reaches from an idle one, whatever the events.  A 401 on a
    request not yet retried that arrives while [isRefreshing] is set only
    joins the end of the queue: no handler is started and nothing is sent.
    In a refresh cycle that starts idle with a refresh token stored and
    succeeds, exactly one refresh call is made, with the stored refresh
    token; the requests that failed meanwhile are sent again oldest first,
    each with its [Authorization] header set to "Bearer " followed by the
    new access token, and after them the request that drove the refresh,
    with the same header and [_retry] set; both new tokens are in the store
    and the coordinator is idle again with an empty queue. *)
Theorem single_flight_refresh st (Hidle : idle st) :
  (∀ evs st' acts,
     run st evs = Some (st', acts) → (refreshes_in_flight st' ≤ 1)%nat)
  ∧ (∀ st1 q, isRefreshing st1 = true → _retry q = false →
       step st1 (ResponseError (Some 401) q) =
       Some ({| isRefreshing := true; failedQueue := failedQueue st1 ++ [q];
                storage := storage st1; handlers := handlers st1 |}, []))
  ∧ (∀ r rs1 rs2 rs3 rs4 rt a' r',
       getItem REFRESH_TOKEN (storage st) = Some rt → rt ≠ "" →
       _retry r = false →
       Forall (λ q, _retry q = false) (rs1 ++ rs2 ++ rs3 ++ rs4) →
       run st (refresh_cycle r rs1 rs2 rs3 rs4 a' r') =
       Some ({| isRefreshing := false; failedQueue := [];
                storage := <["refresh_token" := r']>
                             (<["auth_token" := a']> (storage st));
                handlers := [] |},
             [RefreshCall rt] ++
             map (λ q, Reissue {| req_id := req_id q; _retry := _retry q;
                                  Authorization :=
                                    Some (String.append "Bearer " a') |})
                 (rs1 ++ rs2 ++ rs3 ++ rs4) ++
             [Reissue {| req_id := req_id r; _retry := true;
                         Authorization :=
                           Some (String.append "Bearer " a') |}])).
Proof.
  split; [| split].
  - intros evs st' acts Hrun. apply coherent_in_flight.
    eapply run_coherent; [| exact Hrun]. by apply idle_coherent.
  - intros st1 q Hr Hq. exact (step_unauthorized_busy st1 q Hr Hq).
  - intros r rs1 rs2 rs3 rs4 rt a' r' Hrt Hne Hr Hrs.
    exact (refresh_cycle_run st r rs1 rs2 rs3 rs4 rt a' r'
             Hidle Hrt Hne Hr Hrs).
Qed.

Lemma single_flight_refresh_witness :
  idle (at_rest (session_store "A1" "R1")) ∧
  run (at_rest (session_store "A1" "R1"))
      (refresh_cycle (request 1 "A1") []
         [request 2 "A1"; request 3 "A1"; request 4 "A1"; request 5 "A1"]
         [] [] "A2" "R2") =
  Some ({| isRefreshing := false; failedQueue := [];
           storage := <["refresh_token" := "R2"]>
                        (<["auth_token" := "A2"]>
                           (<["refresh_token" := "R1"]>
                              (<["auth_token" := "A1"]> ∅)));
           handlers := [] |},
        [RefreshCall "R1";
         Reissue {| req_id := 2; _retry := false;
                    Authorization := Some "Bearer A2" |};
         Reissue {| req_id := 3; _retry := false;
                    Authorization := Some "Bearer A2" |};
         Reissue {| req_id := 4; _retry := false;
                    Authorization := Some "Bearer A2" |};
         Reissue {| req_id := 5; _retry := false;
                    Authorization := Some "Bearer A2" |};
         Reissue {| req_id := 1; _retry := true;
                    Authorization := Some "Bearer A2" |}]).
Proof.
  assert (Hidle : idle (at_rest (session_store "A1" "R1")))
    by (repeat split).
  split; [exact Hidle |].
  destruct (single_flight_refresh _ Hidle) as (_ & _ & Hcycle).
  rewrite (Hcycle (request 1 "A1") []
             [request 2 "A1"; request 3 "A1"; request 4 "A1"; request 5 "A1"]
             [] [] "R1" "A2" "R2");
    [reflexivity | reflexivity | discriminate | reflexivity |].
  repeat constructor.
Defined.

(** The request interceptor attaches the new access token to a request that
    is sent after the second write. *)
Lemma request_interceptor_after_refresh s a' r' q :
  a' ≠ "" →
  request_interceptor (setItem REFRESH_TOKEN r' (setItem AUTH_TOKEN a' s)) q =
  set_Authorization a' q.
Proof.
  intros Ha. unfold request_interceptor, getItem, setItem.
  rewrite lookup_insert_ne by done. rewrite lookup_insert_eq.
  apply String.eqb_neq in Ha. by rewrite Ha.
Qed.

(** *** A failed refresh *)

Lemma failed_refresh_run st hd rt e late :
  isRefreshing st = true → handlers st = [hd] →
  pc hd = AwaitRefreshPost rt →
  Forall (λ q, _retry q = false) late →
  run st (failed_refresh e late) =
  Some ({| isRefreshing := false; failedQueue := late;
           storage := multiRemove session_keys (storage st);
           handlers := [] |},
        map (λ q, Reject q e) (failedQueue st) ++
        [Reject (originalRequest hd) e]).
Proof.
  intros Hr Hh Hpc Hlate. unfold failed_refresh. cbn [app].
  rewrite run_cons. cbn. rewrite Hh. cbn. rewrite Hpc. cbn.
  rewrite run_app, run_enqueue by done. cbn.
  rewrite Hr, Hh. cbn. reflexivity.
Qed.

Lemma multiRemove_absent ks (s : gmap string string) k :
  getItem k s = None → getItem k (multiRemove ks s) = None.
Proof.
  unfold getItem, multiRemove. intros Hk.
  induction ks as [| k' ks IH]; cbn [foldr]; [done |].
  apply lookup_delete_None. by right.
Qed.

Lemma processQueue_rejects e tok q :
  forallb (λ a, negb (is_refresh_call a)) (processQueue (Some e) tok q) = true.
Proof. unfold processQueue. by induction q. Qed.

Lemma step_signed_out st ev st' acts :
  signed_out st → stores_refresh_token ev = false →
  step st ev = Some (st', acts) →
  signed_out st' ∧ forallb (λ a, negb (is_refresh_call a)) acts = true.
Proof.
  intros [Hnone Hall] Hev Hstep.
  destruct ev as [status config | h | h res | k v | ks]; cbn in Hstep.
  - destruct (is_401 status && negb (_retry config));
      [destruct (isRefreshing st) |]; simplify_eq; (split; [split |]); cbn;
      try done.
    apply Forall_app; split; [done |]. by repeat constructor.
  - destruct (handlers st !! h) as [hd |] eqn:Hhd; [| done]. cbn in Hstep.
    assert (Hq : before_or_after_refresh hd = true).
    { rewrite Forall_lookup in Hall. by eapply Hall. }
    unfold before_or_after_refresh in Hq.
    destruct (pc hd) eqn:Hpc; try done.
    + rewrite Hnone in Hstep. unfold enter_catch in Hstep. simplify_eq.
      split; [split |]; cbn; [done | | apply processQueue_rejects].
      by apply Forall_insert.
    + simplify_eq. split; [split |]; cbn; [| | done].
      * apply StorageFacts.multiRemove_session_keys.
        unfold session_keys. set_solver.
      * by apply Forall_delete.
  - destruct (handlers st !! h) as [hd |] eqn:Hhd; [| done]. cbn in Hstep.
    assert (Hq : before_or_after_refresh hd = true).
    { rewrite Forall_lookup in Hall. by eapply Hall. }
    unfold before_or_after_refresh in Hq.
    destruct (pc hd) eqn:Hpc; done.
  - simplify_eq. split; [split |]; cbn; [| done | done].
    cbn in Hev. apply String.eqb_neq in Hev.
    unfold getItem, setItem in *. by rewrite lookup_insert_ne.
  - simplify_eq. split; [split |]; cbn; [| done | done].
    by apply multiRemove_absent.
Qed.

(** After the session has been cleared, no refresh call is made until a
    refresh token is stored again. *)
Lemma no_refresh_until_login evs : ∀ st st' acts,
  signed_out st →
  forallb (λ ev, negb (stores_refresh_token ev)) evs = true →
  run st evs = Some (st', acts) →
  forallb (λ a, negb (is_refresh_call a)) acts = true.
Proof.
  induction evs as [| ev evs IH]; intros st st' acts Hso Hevs Hrun;
    cbn in Hrun, Hevs.
  - by simplify_eq.
  - apply andb_prop in Hevs as [Hev Hevs]. apply negb_true_iff in Hev.
    destruct (step st ev) as [[st1 acts1] |] eqn:Hs; [| done]. cbn in Hrun.
    destruct (run st1 evs) as [[st2 acts2] |] eqn:Hr; [| done]. cbn in Hrun.
    simplify_eq.
    destruct (step_signed_out _ _ _ _ Hso Hev Hs) as [Hso1 Hacts1].
    rewrite forallb_app, Hacts1. cbn. by eapply IH.
Qed.


(** ** C2.  A refresh that fails while another request joins late.
    Request 1 drives the refresh and request 2 waits in the queue; the
    refresh call is rejected; the 401 of request 3 arrives while the
    [multiRemove] of the [catch] block is pending.  Request 2 and request 1
    are rejected with the refresh error, the store is cleared and the flag
    is reset, but request 3 is left in [failedQueue]: it is neither
    rejected nor reissued. *)
Theorem failed_refresh_strands_late_request :
  run (at_rest (session_store "A1" "R1"))
      ([unauthorized (request 1 "A1"); StorageSettled 0;
        unauthorized (request 2 "A1")] ++
       failed_refresh (AxiosError (Some 401)) [request 3 "A1"]) =
  Some ({| isRefreshing := false; failedQueue := [request 3 "A1"];
           storage := multiRemove session_keys (session_store "A1" "R1");
           handlers := [] |},
        [RefreshCall "R1";
         Reject (request 2 "A1") (AxiosError (Some 401));
         Reject (set_retry (request 1 "A1")) (AxiosError (Some 401))]).
Proof. vm_compute. reflexivity. Qed.

(** *** Replacement of the credential pair *)

Lemma credentials_first_write s a' :
  (getItem AUTH_TOKEN (setItem AUTH_TOKEN a' s),
   getItem REFRESH_TOKEN (setItem AUTH_TOKEN a' s)) =
  (Some a', getItem REFRESH_TOKEN s).
Proof.
  unfold getItem, setItem. rewrite lookup_insert_eq.
  by rewrite lookup_insert_ne.
Qed.

Lemma credentials_second_write s a' r' :
  getItem AUTH_TOKEN s = Some a' →
  (getItem AUTH_TOKEN (setItem REFRESH_TOKEN r' s),
   getItem REFRESH_TOKEN (setItem REFRESH_TOKEN r' s)) =
  (Some a', Some r').
Proof.
  unfold getItem, setItem. intros Ha. rewrite lookup_insert_eq.
  by rewrite lookup_insert_ne, Ha.
Qed.

(** C3, as stated, fails: between the two [setItem] calls the store holds
    the new access token next to the old refresh token. *)
Lemma replaced_atomically_fails : ¬ replaced_atomically.
Proof.
  intros Hatomic.
  destruct (Hatomic (at_rest (session_store "A1" "R1")) (request 1 "A1")
              "A2" "R2"
              [unauthorized (request 1 "A1"); StorageSettled 0;
               RefreshSettled 0 (inr ("A2", "R2")); StorageSettled 0]
              {| isRefreshing := true; failedQueue := [];
                 storage := setItem AUTH_TOKEN "A2" (session_store "A1" "R1");
                 handlers := [mkHandler (set_retry (request 1 "A1"))
                                (AwaitSetRefreshToken "A2" "R2")] |}
              [RefreshCall "R1"]) as [Hold | Hnew].
  - done.
  - done.
  - exists [StorageSettled 0]. reflexivity.
  - vm_compute. reflexivity.
  - vm_compute in Hold. discriminate Hold.
  - vm_compute in Hnew. discriminate Hnew.
Qed.

(** ** C3 (amended).  A successful refresh replaces the stored pair by two
    separate writes, the access token first: a reader sees the old pair
    until the first write, the new access token next to the old refresh
    token between the two writes, and the new pair after the second. *)
Theorem tokens_replaced_in_two_writes st r rs1 rs2 rs3 rs4 rt a' r' :
  idle st →
  getItem REFRESH_TOKEN (storage st) = Some rt → rt ≠ "" →
  _retry r = false →
  Forall (λ q, _retry q = false) (rs1 ++ rs2 ++ rs3 ++ rs4) →
  ∃ st1 st2 st3 acts1 acts2 acts3,
    run st (cycle_until_tokens r rs1 rs2 rs3 a' r') = Some (st1, acts1)
    ∧ credentials st1 = credentials st
    ∧ run st1 (cycle_first_write rs4) = Some (st2, acts2)
    ∧ credentials st2 = (Some a', Some rt)
    ∧ run st2 cycle_second_write = Some (st3, acts3)
    ∧ credentials st3 = (Some a', Some r').
Proof.
  intros Hidle Hrt Hne Hr Hrs.
  apply Forall_app in Hrs as [H1 Hrs]. apply Forall_app in Hrs as [H2 Hrs].
  apply Forall_app in Hrs as [H3 H4].
  assert (H123 : Forall (λ q, _retry q = false) (rs1 ++ rs2 ++ rs3)).
  { by repeat (apply Forall_app; split). }
  do 6 eexists.
  split; [by apply (cycle_until_tokens_run _ _ _ _ _ rt) |].
  split; [reflexivity |].
  split; [by apply (cycle_first_write_run _ _ _ a' r') |].
  split; [unfold credentials; cbn [storage];
          by rewrite credentials_first_write, Hrt |].
  split; [by apply (cycle_second_write_run _ _ _ a' r') |].
  unfold credentials; cbn [storage]. apply credentials_second_write.
  unfold getItem, setItem. by rewrite lookup_insert_eq.
Qed.

Lemma tokens_replaced_in_two_writes_witness :
  ∃ st1 st2 st3 acts1 acts2 acts3,
    run (at_rest (session_store "A1" "R1"))
        (cycle_until_tokens (request 1 "A1") [] [request 2 "A1"] [] "A2" "R2")
      = Some (st1, acts1)
    ∧ credentials st1 = credentials (at_rest (session_store "A1" "R1"))
    ∧ run st1 (cycle_first_write [request 3 "A1"]) = Some (st2, acts2)
    ∧ credentials st2 = (Some "A2", Some "R1")
    ∧ run st2 cycle_second_write = Some (st3, acts3)
    ∧ credentials st3 = (Some "A2", Some "R2").
Proof.
  apply (tokens_replaced_in_two_writes (at_rest (session_store "A1" "R1"))
           (request 1 "A1") [] [request 2 "A1"] [] [request 3 "A1"] "R1");
    [repeat split | reflexivity | discriminate | reflexivity |].
  repeat constructor.
Defined.

End ApiFacts.

(** ** Sorting *)
Module SortFacts.
Import JsArray.

Section Descending.
Context {A : Type} (key : A → Q).

Lemma cmp_le x y : Qle_bool (descending key x y) 0 = true ↔ (key y <= key x)%Q.
Proof. unfold descending. rewrite Qle_bool_iff. split; intros H; lra. Qed.

Lemma insert_perm x l : insert (descending key) x l ≡ₚ x :: l.
Proof.
  induction l as [| y l IH]; cbn [insert]; [done |].
  destruct (Qle_bool (descending key x y) 0); [done |].
  rewrite IH. apply Permutation_swap.
Qed.

Lemma sort_perm l : sort (descending key) l ≡ₚ l.
Proof.
  induction l as [| x l IH]; cbn [sort]; [done |].
  by rewrite insert_perm, IH.
Qed.

Lemma insert_sorted x l :
  StronglySorted (λ a b, key b <= key a)%Q l →
  StronglySorted (λ a b, key b <= key a)%Q (insert (descending key) x l).
Proof.
  induction 1 as [| y l Hs IH Hall]; cbn [insert].
  - repeat constructor.
  - destruct (Qle_bool (descending key x y) 0) eqn:E.
    + apply cmp_le in E. constructor; [by constructor |].
      constructor; [done |].
      eapply Forall_impl; [exact Hall |]. cbn. intros b Hb. lra.
    + constructor; [exact IH |].
      rewrite insert_perm. constructor; [| exact Hall].
      destruct (Qlt_le_dec (key x) (key y)) as [Hlt | Hle]; [lra |].
      apply cmp_le in Hle. congruence.
Qed.

Lemma sort_sorted l : StronglySorted (λ a b, key b <= key a)%Q (sort (descending key) l).
Proof.
  induction l as [| x l IH]; cbn [sort]; [constructor |].
  by apply insert_sorted.
Qed.

Lemma insert_stable k x l :
  List.filter (same_key key k) (insert (descending key) x l) =
  List.filter (same_key key k) (x :: l).
Proof.
  induction l as [| y l IH]; cbn [insert]; [done |].
  destruct (Qle_bool (descending key x y) 0) eqn:E; [done |].
  cbn [List.filter] in IH |- *. rewrite IH.
  destruct (same_key key k x) eqn:Ex, (same_key key k y) eqn:Ey; try done.
  unfold same_key in Ex, Ey. apply Qeq_bool_iff in Ex, Ey.
  assert (Hle : Qle_bool (descending key x y) 0 = true) by (apply cmp_le; lra).
  congruence.
Qed.

Lemma sort_stable k l :
  List.filter (same_key key k) (sort (descending key) l) = List.filter (same_key key k) l.
Proof.
  induction l as [| x l IH]; cbn [sort]; [done |].
  rewrite insert_stable. cbn [List.filter]. by rewrite IH.
Qed.

End Descending.

End SortFacts.

(** ** The result screens *)
Module ResultsFacts.
Import JsArray SortFacts.

(** C4, as stated, fails: two flights with the same utility stay in the
    order received, the dearer one first. *)
Lemma ranking_ignores_price :
  ¬ FlightResultsScreen.ranked_as_specified
      (FlightResultsScreen.sortedResults FlightResultsScreen.by_score
         [FlightResultsScreen.scored 1 300 (1 # 2);
          FlightResultsScreen.scored 2 200 (1 # 2)]).
Proof.
  unfold FlightResultsScreen.ranked_as_specified. intros Hs.
  vm_compute in Hs. inversion Hs as [| a l _ Hall]; subst.
  inversion Hall as [| b l' [Hlt | [_ Hle]] _]; subst.
  - vm_compute in Hlt. discriminate Hlt.
  - vm_compute in Hle. by apply Hle.
Qed.

(** ** C4 (amended).  Under the score ordering the displayed list is a
    permutation of the results received, ordered by utility descending
    (an absent utility counts as 0), and candidates of equal utility keep
    the order in which they were received; the price plays no part. *)
Theorem ranking_by_score_stable :
  (∀ l : list FlightResultsScreen.Flight,
     FlightResultsScreen.sortedResults FlightResultsScreen.by_score l ≡ₚ l
     ∧ StronglySorted
         (λ a b, FlightResultsScreen.utility b <= FlightResultsScreen.utility a)%Q
         (FlightResultsScreen.sortedResults FlightResultsScreen.by_score l)
     ∧ ∀ k, List.filter (same_key FlightResultsScreen.utility k)
              (FlightResultsScreen.sortedResults FlightResultsScreen.by_score l)
            = List.filter (same_key FlightResultsScreen.utility k) l)
  ∧ (∀ l : list HotelResultsScreen.Hotel,
     HotelResultsScreen.sortedResults HotelResultsScreen.by_score l ≡ₚ l
     ∧ StronglySorted
         (λ a b, HotelResultsScreen.utility b <= HotelResultsScreen.utility a)%Q
         (HotelResultsScreen.sortedResults HotelResultsScreen.by_score l)
     ∧ ∀ k, List.filter (same_key HotelResultsScreen.utility k)
              (HotelResultsScreen.sortedResults HotelResultsScreen.by_score l)
            = List.filter (same_key HotelResultsScreen.utility k) l).
Proof.
  split; intros l; (split; [| split]).
  - apply (sort_perm FlightResultsScreen.utility).
  - apply (sort_sorted FlightResultsScreen.utility).
  - intros k. apply (sort_stable FlightResultsScreen.utility).
  - apply (sort_perm HotelResultsScreen.utility).
  - apply (sort_sorted HotelResultsScreen.utility).
  - intros k. apply (sort_stable HotelResultsScreen.utility).
Qed.

End ResultsFacts.

(** ** The authentication store *)
Module AuthStoreFacts.
Import Storage AuthStore.

(** ** C10.  [logout] never rejects; whether the server call succeeded or
    failed, the three session keys are removed from the store and the
    state is reset to unauthenticated with no error. *)
Theorem logout_always_clears (server : Api.Err + unit) (st : AuthState)
    (s : gmap string string) :
  ∃ st' s',
    logout server st s = inr (st', s')
    ∧ user st' = None ∧ tokens st' = None
    ∧ isAuthenticated st' = false ∧ error st' = None
    ∧ getItem AUTH_TOKEN s' = None
    ∧ getItem REFRESH_TOKEN s' = None
    ∧ getItem USER_DATA s' = None.
Proof.
  unfold logout. destruct server as [e | []]; cbn [try_catch];
    (do 2 eexists; split; [reflexivity |]; cbn;
     repeat split;
     apply StorageFacts.multiRemove_session_keys;
     unfold session_keys; set_solver).
Qed.

End AuthStoreFacts.

(** ** JavaScript strings *)
Module JsStringFacts.
Import JsString.

Lemma trimStart_blank s :
  Forall (λ c, is_white_space c = true) s → trimStart s = [].
Proof.
  induction 1 as [| c s Hc _ IH]; cbn [trimStart]; [done |].
  by rewrite Hc.
Qed.

Lemma trim_blank s :
  Forall (λ c, is_white_space c = true) s → trim s = [].
Proof. intros H. unfold trim, trimEnd. by rewrite (trimStart_blank s H). Qed.

End JsStringFacts.

(** ** The chat component *)
Module TravelChatFacts.
Import JsString TravelChat.

(** C6, as stated, fails: the origin known from an earlier turn is gone
    once the collaborator answers with the destination alone. *)
Lemma merges_monotonically_fails : ¬ merges_monotonically.
Proof.
  intros Hmerge.
  specialize (Hmerge false (extraction_reply only_destination false)
                only_destination ready_to_plan eq_refl eq_refl).
  vm_compute in Hmerge. discriminate Hmerge.
Qed.

(** ** C6 (amended).  A submission carries the current extracted set to
    the collaborator; on success the client replaces its extracted set by
    the one the collaborator returns, or by the empty set when none is
    returned.  A field of an earlier turn persists only if the
    collaborator returns it. *)
Theorem extraction_replaces_params text st st1 body voice data :
  sendMessage text st = Awaiting st1 body voice →
  success data = true →
  extracted_params body = extractedParams st
  ∧ extractedParams (sendMessage_settle voice (Some data) st1).1.1 =
    default empty_params (data_extracted_params data).
Proof.
  unfold sendMessage. intros Hcall Hok.
  destruct (negb (truthy (trim text))); [discriminate Hcall |].
  injection Hcall as <- <- <-. split; [reflexivity |].
  unfold sendMessage_settle. by rewrite Hok.
Qed.

Lemma extraction_replaces_params_witness :
  extracted_params
    {| message := lit "to Paris";
       conversation := [mkChatMessage assistant (lit "Hi!")];
       extracted_params := only_origin; confirmed := false |}
  = extractedParams ready_to_plan
  ∧ extractedParams
      (sendMessage_settle false
         (Some (extraction_reply only_destination false))
         (setLoading true
            (setInput []
               (push_message (mkChatMessage user (lit "to Paris"))
                  ready_to_plan)))).1.1
    = default empty_params
        (data_extracted_params (extraction_reply only_destination false)).
Proof.
  apply (extraction_replaces_params (lit " to Paris ") ready_to_plan);
    [vm_compute; reflexivity | reflexivity].
Defined.

(** C7, as stated, fails: the user turn and an apology are appended. *)
Lemma failure_leaves_state_fails : ¬ failure_leaves_state.
Proof.
  intros Hsame.
  destruct (Hsame (lit "to Paris") ready_to_plan _ _ _ eq_refl) as [Hm _].
  vm_compute in Hm. discriminate Hm.
Qed.

(** ** C7 (amended).  When the extraction call fails on the network, the
    extracted fields and the completeness flag are as before the
    submission; the turns are not: the user turn appended before the call
    stays, and an apology of the assistant is appended after it. *)
Theorem network_failure_keeps_params text st st1 body voice :
  sendMessage text st = Awaiting st1 body voice →
  extractedParams (sendMessage_settle voice None st1).1.1 = extractedParams st
  ∧ paramsComplete (sendMessage_settle voice None st1).1.1 = paramsComplete st
  ∧ messages (sendMessage_settle voice None st1).1.1 =
    messages st ++ [mkChatMessage user (trim text);
                    mkChatMessage assistant could_not_reach]
  ∧ (sendMessage_settle voice None st1).2 = Fulfilled.
Proof.
  unfold sendMessage. intros Hcall.
  destruct (negb (truthy (trim text))); [discriminate Hcall |].
  injection Hcall as <- <- <-. cbn.
  repeat split. by rewrite <- app_assoc.
Qed.

Lemma network_failure_keeps_params_witness :
  extractedParams
    (sendMessage_settle false None
       (setLoading true
          (setInput []
             (push_message (mkChatMessage user (lit "to Paris"))
                ready_to_plan)))).1.1
  = extractedParams ready_to_plan.
Proof.
  apply (network_failure_keeps_params (lit " to Paris ") ready_to_plan _
           {| message := lit "to Paris";
              conversation := [mkChatMessage assistant (lit "Hi!")];
              extracted_params := only_origin; confirmed := false |}).
  vm_compute. reflexivity.
Defined.

(** C8, as stated, fails: nothing is rejected. *)
Lemma rejects_blank_input_fails : ¬ rejects_blank_input.
Proof.
  intros Hrej.
  destruct (Hrej (lit "   ") ready_to_plan) as [st' Hst'].
  - repeat constructor.
  - vm_compute in Hst'. discriminate Hst'.
Qed.

(** ** C8 (amended).  An utterance that is empty or made of white space
    only is dropped silently: [sendMessage] returns at once, issues no
    request, leaves the state as it is and raises no error. *)
Theorem blank_input_is_dropped text st :
  Forall (λ c, is_white_space c = true) text →
  sendMessage text st = Returned st Fulfilled.
Proof.
  intros Hblank. unfold sendMessage.
  by rewrite (JsStringFacts.trim_blank text Hblank).
Qed.

Lemma blank_input_is_dropped_witness :
  sendMessage (lit "   ") ready_to_plan = Returned ready_to_plan Fulfilled.
Proof.
  apply blank_input_is_dropped. vm_compute. repeat constructor.
Defined.




End TravelChatFacts.

(** ** The scoring engine *)
Module ScoringFacts.
Import Scoring.

(** The flight scenario of the specification: price 450 under a budget of
    500 gives a total of 0.7 and the tier [good]. *)
Example scenario_within_budget :
  (totalUtility (score no_ranks (spec_flight 450) spec_profile) == 7 # 10)%Q
  ∧ recommendation (score no_ranks (spec_flight 450) spec_profile) = good.
Proof. split; vm_compute; reflexivity. Qed.

(** ** C5.  Whenever the computed breakdown has [budgetConstraintMet]
    false, its recommendation is [poor], whatever the component scores
    and the total utility. *)
Theorem over_budget_is_poor ctx c g :
  budgetConstraintMet (score ctx c g) = false →
  recommendation (score ctx c g) = poor.
Proof.
  unfold score. cbn [budgetConstraintMet recommendation].
  intros Hmet. unfold tier. by rewrite Hmet.
Qed.

Lemma over_budget_is_poor_witness :
  budgetConstraintMet (score no_ranks (spec_flight 600) spec_profile) = false
  ∧ recommendation (score no_ranks (spec_flight 600) spec_profile) = poor.
Proof.
  split; [vm_compute; reflexivity |].
  apply over_budget_is_poor. vm_compute. reflexivity.
Defined.

End ScoringFacts.

(** * Further properties *)

(** ** The interceptors, beyond the refresh cycle *)
Module ApiExtra.
Import Storage Api.

Local Arguments getItem : simpl never.
Local Arguments setItem : simpl never.
Local Arguments multiRemove : simpl never.

(** A 401 met while no refresh token is stored (or an empty one) makes no
    refresh call: every request in the queue, the ones that join while the
    store is read, and the request itself are rejected with "No refresh
    token"; the session keys are removed and the flag is reset.  Requests
    that were left in the queue by an earlier cycle are rejected here too;
    those that join during the clear stay queued. *)
Theorem tokenless_401_rejects st r rs late :
  isRefreshing st = false → handlers st = [] →
  no_refresh_token (storage st) →
  _retry r = false →
  Forall (λ q, _retry q = false) (rs ++ late) →
  run st (tokenless_cycle r rs late) =
  Some ({| isRefreshing := false; failedQueue := late;
           storage := multiRemove session_keys (storage st);
           handlers := [] |},
        map (λ q, Reject q (JsError "No refresh token")) (failedQueue st ++ rs) ++
        [Reject (set_retry r) (JsError "No refresh token")]).
Proof.
  intros Hi Hh Htok Hr Hrs. apply Forall_app in Hrs as [H1 H2].
  unfold tokenless_cycle. cbn [app].
  rewrite ApiFacts.run_cons, ApiFacts.step_unauthorized_idle by done.
  rewrite Hh. cbn [mbind option_bind app].
  rewrite ApiFacts.run_app, ApiFacts.run_enqueue by done.
  cbn [mbind option_bind].
  rewrite ApiFacts.run_cons. cbn.
  assert (Hcatch :
    match getItem REFRESH_TOKEN (storage st) with
    | Some refreshToken =>
        if String.eqb refreshToken "" then true else false
    | None => true
    end = true).
  { destruct Htok as [-> | ->]; reflexivity. }
  destruct (getItem REFRESH_TOKEN (storage st)) as [rt |];
    [destruct (String.eqb rt "") eqn:E; [| discriminate Hcatch] |];
    cbn; (rewrite ApiFacts.run_app, ApiFacts.run_enqueue by done); cbn;
    reflexivity.
Qed.

Lemma tokenless_401_rejects_witness :
  run (at_rest ∅) (tokenless_cycle (request 1 "A1") [request 2 "A1"] []) =
  Some ({| isRefreshing := false; failedQueue := [];
           storage := multiRemove session_keys (storage (at_rest ∅));
           handlers := [] |},
        map (λ q, Reject q (JsError "No refresh token"))
            (failedQueue (at_rest ∅) ++ [request 2 "A1"]) ++
        [Reject (set_retry (request 1 "A1")) (JsError "No refresh token")]).
Proof.
  apply (tokenless_401_rejects (at_rest ∅));
    [reflexivity | reflexivity | left; reflexivity | reflexivity |].
  repeat constructor.
Defined.

(** The request that drove a refresh carries [_retry] when it is sent
    again: if it fails with 401 once more it is rejected at once, and no
    second refresh is started for it. *)
Theorem driver_is_retried_once st r rs1 rs2 rs3 rs4 rt a' r' :
  idle st →
  getItem REFRESH_TOKEN (storage st) = Some rt → rt ≠ "" →
  _retry r = false →
  Forall (λ q, _retry q = false) (rs1 ++ rs2 ++ rs3 ++ rs4) →
  run st (refresh_cycle r rs1 rs2 rs3 rs4 a' r' ++
          [unauthorized (set_Authorization a' (set_retry r))]) =
  Some ({| isRefreshing := false; failedQueue := [];
           storage := setItem REFRESH_TOKEN r'
                        (setItem AUTH_TOKEN a' (storage st));
           handlers := [] |},
        ([RefreshCall rt] ++
         map (λ q, Reissue (set_Authorization a' q)) (rs1 ++ rs2 ++ rs3 ++ rs4) ++
         [Reissue (set_Authorization a' (set_retry r))]) ++
        [Reject (set_Authorization a' (set_retry r)) (AxiosError (Some 401))]).
Proof.
  intros Hidle Hrt Hne Hr Hrs.
  rewrite ApiFacts.run_app, (ApiFacts.refresh_cycle_run _ _ _ _ _ _ rt) by done.
  reflexivity.
Qed.

Lemma driver_is_retried_once_witness :
  run (at_rest (session_store "A1" "R1"))
      (refresh_cycle (request 1 "A1") [] [request 2 "A1"] [] [] "A2" "R2" ++
       [unauthorized (set_Authorization "A2" (set_retry (request 1 "A1")))]) =
  Some ({| isRefreshing := false; failedQueue := [];
           storage := setItem REFRESH_TOKEN "R2"
                        (setItem AUTH_TOKEN "A2"
                           (storage (at_rest (session_store "A1" "R1"))));
           handlers := [] |},
        ([RefreshCall "R1"] ++
         map (λ q, Reissue (set_Authorization "A2" q))
             ([] ++ [request 2 "A1"] ++ [] ++ []) ++
         [Reissue (set_Authorization "A2" (set_retry (request 1 "A1")))]) ++
        [Reject (set_Authorization "A2" (set_retry (request 1 "A1")))
                (AxiosError (Some 401))]).
Proof.
  apply (driver_is_retried_once (at_rest (session_store "A1" "R1")));
    [repeat split | reflexivity | discriminate | reflexivity |].
  repeat constructor.
Defined.

(** The request interceptor follows the store: once a refresh has written
    its tokens, every request leaves the interceptor with its
    [Authorization] header set to "Bearer " followed by the new access
    token, whatever header it carried, and with nothing else changed; once
    the session keys have been removed a request keeps the header it has. *)
Theorem interceptor_follows_store s a' r' q :
  a' ≠ "" →
  request_interceptor (setItem REFRESH_TOKEN r' (setItem AUTH_TOKEN a' s)) q =
    {| req_id := req_id q; _retry := _retry q;
       Authorization := Some (String.append "Bearer " a') |}
  ∧ request_interceptor (multiRemove session_keys s) q = q.
Proof.
  intros Ha. split.
  - unfold request_interceptor, getItem, setItem.
    rewrite lookup_insert_ne by done. rewrite lookup_insert_eq.
    apply String.eqb_neq in Ha. by rewrite Ha.
  - unfold request_interceptor.
    rewrite StorageFacts.multiRemove_session_keys; [done |].
    unfold session_keys. set_solver.
Qed.

Lemma interceptor_follows_store_witness :
  request_interceptor
    (setItem REFRESH_TOKEN "R2" (setItem AUTH_TOKEN "A2" (session_store "A1" "R1")))
    {| req_id := 7; _retry := false; Authorization := Some "Bearer A1" |} =
  {| req_id := 7; _retry := false; Authorization := Some "Bearer A2" |}.
Proof.
  apply (interceptor_follows_store (session_store "A1" "R1") "A2" "R2"
           {| req_id := 7; _retry := false;
              Authorization := Some "Bearer A1" |}).
  discriminate.
Defined.

(** Once the refresh token is gone from the store and no handler is past
    reading it, no sequence of events makes the interceptor call the refresh
    endpoint, as long as none of them stores a refresh token again (as a
    login or a registration does). *)
Theorem signed_out_never_refreshes evs st st' acts :
  signed_out st →
  forallb (λ ev, negb (stores_refresh_token ev)) evs = true →
  run st evs = Some (st', acts) →
  forallb (λ a, negb (is_refresh_call a)) acts = true.
Proof. apply ApiFacts.no_refresh_until_login. Qed.

Lemma signed_out_never_refreshes_witness :
  forallb (λ a, negb (is_refresh_call a))
    [Reject (set_retry (request 1 "A1")) (JsError "No refresh token")] = true.
Proof.
  apply (signed_out_never_refreshes
           [unauthorized (request 1 "A1"); StorageSettled 0; StorageSettled 0]
           (at_rest ∅)
           {| isRefreshing := false; failedQueue := [];
              storage := multiRemove session_keys ∅; handlers := [] |}).
  - split; [reflexivity | constructor].
  - reflexivity.
  - vm_compute. reflexivity.
Defined.

(** When the refresh call fails, the requests queued until then and the
    request that drove the refresh are rejected with the error of the
    refresh call, in that order; the three session keys are removed and the
    flag is reset.  Requests whose 401 arrives while the removal is pending
    are not part of this: they stay in the queue. *)
Theorem failed_refresh_rejects_and_clears st hd rt e late :
  isRefreshing st = true → handlers st = [hd] →
  pc hd = AwaitRefreshPost rt →
  Forall (λ q, _retry q = false) late →
  run st (failed_refresh e late) =
  Some ({| isRefreshing := false; failedQueue := late;
           storage := multiRemove session_keys (storage st);
           handlers := [] |},
        map (λ q, Reject q e) (failedQueue st) ++
        [Reject (originalRequest hd) e]).
Proof. apply ApiFacts.failed_refresh_run. Qed.

Lemma failed_refresh_rejects_and_clears_witness :
  run {| isRefreshing := true; failedQueue := [request 2 "A1"];
         storage := session_store "A1" "R1";
         handlers := [mkHandler (set_retry (request 1 "A1"))
                                (AwaitRefreshPost "R1")] |}
      (failed_refresh (JsError "Network Error") []) =
  Some ({| isRefreshing := false; failedQueue := [];
           storage := multiRemove session_keys (session_store "A1" "R1");
           handlers := [] |},
        map (λ q, Reject q (JsError "Network Error")) [request 2 "A1"] ++
        [Reject (set_retry (request 1 "A1")) (JsError "Network Error")]).
Proof.
  exact (failed_refresh_rejects_and_clears
           {| isRefreshing := true; failedQueue := [request 2 "A1"];
              storage := session_store "A1" "R1";
              handlers := [mkHandler (set_retry (request 1 "A1"))
                                     (AwaitRefreshPost "R1")] |}
           (mkHandler (set_retry (request 1 "A1")) (AwaitRefreshPost "R1"))
           "R1" (JsError "Network Error") []
           eq_refl eq_refl eq_refl (List.Forall_nil _)).
Defined.

End ApiExtra.

(** ** Sorting by any of the orderings *)
Module SortExtra.
Import JsArray.

Section AnyComparator.
Context {A : Type} (cmp : A → A → Q).

Lemma insert_permutes x l : insert cmp x l ≡ₚ x :: l.
Proof.
  induction l as [| y l IH]; cbn [insert]; [done |].
  destruct (Qle_bool (cmp x y) 0); [done |].
  rewrite IH. apply Permutation_swap.
Qed.

Lemma sort_permutes l : sort cmp l ≡ₚ l.
Proof.
  induction l as [| x l IH]; cbn [sort]; [done |].
  by rewrite insert_permutes, IH.
Qed.

End AnyComparator.

Section ByKey.
Context {A : Type} (cmp : A → A → Q) (key : A → Q).
Hypothesis cmp_key :
  ∀ x y, Qle_bool (cmp x y) 0 = true ↔ (key x <= key y)%Q.

Lemma insert_ordered x l :
  StronglySorted (λ a b, key a <= key b)%Q l →
  StronglySorted (λ a b, key a <= key b)%Q (insert cmp x l).
Proof.
  induction 1 as [| y l Hs IH Hall]; cbn [insert].
  - repeat constructor.
  - destruct (Qle_bool (cmp x y) 0) eqn:E.
    + apply cmp_key in E. constructor; [by constructor |].
      constructor; [done |].
      eapply Forall_impl; [exact Hall |]. cbn. intros b Hb. lra.
    + constructor; [exact IH |].
      rewrite insert_permutes. constructor; [| exact Hall].
      destruct (Qlt_le_dec (key y) (key x)) as [Hlt | Hle]; [lra |].
      apply cmp_key in Hle. congruence.
Qed.

Lemma sort_ordered l :
  StronglySorted (λ a b, key a <= key b)%Q (sort cmp l).
Proof.
  induction l as [| x l IH]; cbn [sort]; [constructor |].
  by apply insert_ordered.
Qed.

Lemma insert_keeps_ties k x l :
  List.filter (same_key key k) (insert cmp x l) =
  List.filter (same_key key k) (x :: l).
Proof.
  induction l as [| y l IH]; cbn [insert]; [done |].
  destruct (Qle_bool (cmp x y) 0) eqn:E; [done |].
  cbn [List.filter] in IH |- *. rewrite IH.
  destruct (same_key key k x) eqn:Ex, (same_key key k y) eqn:Ey; try done.
  unfold same_key in Ex, Ey. apply Qeq_bool_iff in Ex, Ey.
  assert (Hle : Qle_bool (cmp x y) 0 = true) by (apply cmp_key; lra).
  congruence.
Qed.

Lemma sort_keeps_ties k l :
  List.filter (same_key key k) (sort cmp l) = List.filter (same_key key k) l.
Proof.
  induction l as [| x l IH]; cbn [sort]; [done |].
  rewrite insert_keeps_ties. cbn [List.filter]. by rewrite IH.
Qed.

Lemma sort_fixed l :
  StronglySorted (λ a b, key a <= key b)%Q l → sort cmp l = l.
Proof.
  induction 1 as [| x l Hs IH Hall]; cbn [sort]; [done |].
  rewrite IH. destruct l as [| y l]; [done |]. cbn [insert].
  apply Forall_cons in Hall as [Hxy _]. apply cmp_key in Hxy.
  by rewrite Hxy.
Qed.

Lemma sort_idempotent l : sort cmp (sort cmp l) = sort cmp l.
Proof. apply sort_fixed, sort_ordered. Qed.

End ByKey.

End SortExtra.

(** ** The result screens, every ordering *)
Module ResultsExtra.
Import JsArray SortExtra.

Lemma flight_compareFn_key sortBy x y :
  Qle_bool (FlightResultsScreen.compareFn sortBy x y) 0 = true ↔
  (FlightResultsScreen.sort_key sortBy x <= FlightResultsScreen.sort_key sortBy y)%Q.
Proof.
  rewrite Qle_bool_iff.
  destruct sortBy; unfold FlightResultsScreen.compareFn,
    FlightResultsScreen.sort_key; split; intros H; lra.
Qed.

Lemma hotel_compareFn_key sortBy x y :
  Qle_bool (HotelResultsScreen.compareFn sortBy x y) 0 = true ↔
  (HotelResultsScreen.sort_key sortBy x <= HotelResultsScreen.sort_key sortBy y)%Q.
Proof.
  rewrite Qle_bool_iff.
  destruct sortBy; unfold HotelResultsScreen.compareFn,
    HotelResultsScreen.sort_key; split; intros H; lra.
Qed.

(** Whatever ordering is selected on the flight screen, the list shown is a
    permutation of the results (none is dropped or repeated), ordered by the
    selected quantity: price, duration or stops ascending, utility
    descending.  A flight without [duration_minutes] sorts as duration 0.
    Flights equal in that quantity keep the order in which they came. *)
Theorem flight_orderings sortBy (l : list FlightResultsScreen.Flight) :
  FlightResultsScreen.sortedResults sortBy l ≡ₚ l
  ∧ StronglySorted
      (λ a b, FlightResultsScreen.sort_key sortBy a <=
              FlightResultsScreen.sort_key sortBy b)%Q
      (FlightResultsScreen.sortedResults sortBy l)
  ∧ ∀ k, List.filter (same_key (FlightResultsScreen.sort_key sortBy) k)
           (FlightResultsScreen.sortedResults sortBy l)
         = List.filter (same_key (FlightResultsScreen.sort_key sortBy) k) l.
Proof.
  unfold FlightResultsScreen.sortedResults. split; [| split].
  - apply sort_permutes.
  - apply sort_ordered, flight_compareFn_key.
  - intros k. apply sort_keeps_ties, flight_compareFn_key.
Qed.

(** The same on the hotel screen: price ascending, rating, stars or utility
    descending, ties in the order received. *)
Theorem hotel_orderings sortBy (l : list HotelResultsScreen.Hotel) :
  HotelResultsScreen.sortedResults sortBy l ≡ₚ l
  ∧ StronglySorted
      (λ a b, HotelResultsScreen.sort_key sortBy a <=
              HotelResultsScreen.sort_key sortBy b)%Q
      (HotelResultsScreen.sortedResults sortBy l)
  ∧ ∀ k, List.filter (same_key (HotelResultsScreen.sort_key sortBy) k)
           (HotelResultsScreen.sortedResults sortBy l)
         = List.filter (same_key (HotelResultsScreen.sort_key sortBy) k) l.
Proof.
  unfold HotelResultsScreen.sortedResults. split; [| split].
  - apply sort_permutes.
  - apply sort_ordered, hotel_compareFn_key.
  - intros k. apply sort_keeps_ties, hotel_compareFn_key.
Qed.

(** Sorting a list that is already in the selected order changes nothing:
    rendering again with the same ordering never reshuffles tied results. *)
Theorem resorting_changes_nothing :
  (∀ sortBy (l : list FlightResultsScreen.Flight),
     FlightResultsScreen.sortedResults sortBy
       (FlightResultsScreen.sortedResults sortBy l) =
     FlightResultsScreen.sortedResults sortBy l)
  ∧ (∀ sortBy (l : list HotelResultsScreen.Hotel),
     HotelResultsScreen.sortedResults sortBy
       (HotelResultsScreen.sortedResults sortBy l) =
     HotelResultsScreen.sortedResults sortBy l).
Proof.
  split; intros sortBy l.
  - eapply sort_idempotent, flight_compareFn_key.
  - eapply sort_idempotent, hotel_compareFn_key.
Qed.

End ResultsExtra.

(** ** [trim] *)
Module JsStringExtra.
Import JsString.

Lemma trimStart_head s c t :
  trimStart s = c :: t → is_white_space c = false.
Proof.
  induction s as [| d s IH]; cbn [trimStart]; [done |].
  destruct (is_white_space d) eqn:E; [exact IH |].
  intros H. by simplify_eq.
Qed.

Lemma trimStart_split s :
  ∃ p, s = p ++ trimStart s ∧ Forall (λ c, is_white_space c = true) p.
Proof.
  induction s as [| d s (p & Hs & Hp)]; cbn [trimStart].
  - by exists [].
  - destruct (is_white_space d) eqn:E.
    + exists (d :: p). split; [by rewrite Hs at 1 | by constructor].
    + by exists [].
Qed.

Lemma trimStart_nil s :
  trimStart s = [] → Forall (λ c, is_white_space c = true) s.
Proof.
  intros H. destruct (trimStart_split s) as (p & Hs & Hp).
  rewrite H, app_nil_r in Hs. by subst.
Qed.

(** [trim s] is what is left of [trimStart s] once a blank tail is cut. *)
Lemma trim_split s :
  ∃ q, trimStart s = trim s ++ q ∧ Forall (λ c, is_white_space c = true) q.
Proof.
  unfold trim, trimEnd.
  destruct (trimStart_split (rev (trimStart s))) as (p & Hs & Hp).
  exists (rev p). split; [| by apply Forall_rev].
  rewrite <- rev_app_distr, <- Hs. by rewrite rev_involutive.
Qed.

Lemma trim_nil s :
  trim s = [] → Forall (λ c, is_white_space c = true) s.
Proof.
  intros H. destruct (trim_split s) as (q & Hq & Hws).
  rewrite H in Hq. cbn in Hq.
  destruct (trimStart_split s) as (p & Hs & Hp).
  rewrite Hs, Hq. by apply Forall_app.
Qed.

Lemma trim_head s c :
  head (trim s) = Some c → is_white_space c = false.
Proof.
  destruct (trim_split s) as (q & Hq & _).
  destruct (trim s) as [| d t]; [done |]. cbn. intros H. simplify_eq.
  by eapply trimStart_head.
Qed.

Lemma trim_last s c :
  last (trim s) = Some c → is_white_space c = false.
Proof.
  unfold trim, trimEnd.
  destruct (trimStart (rev (trimStart s))) as [| d t] eqn:E; [done |].
  cbn [rev]. rewrite last_snoc. intros H. simplify_eq.
  by eapply trimStart_head.
Qed.

End JsStringExtra.

(** ** The chat component, other handlers *)
Module TravelChatExtra.
Import JsString TravelChat.

(** An utterance with at least one character that is not white space is
    sent: the message of the request is the utterance without its leading
    and trailing white space, it is neither empty nor padded, and the same
    text is appended to the history as the user turn. *)
Theorem nonblank_input_is_sent text st :
  Exists (λ c, is_white_space c = false) text →
  ∃ st1 body voice,
    sendMessage text st = Awaiting st1 body voice
    ∧ message body = trim text
    ∧ message body ≠ []
    ∧ (∀ c, head (message body) = Some c → is_white_space c = false)
    ∧ (∀ c, last (message body) = Some c → is_white_space c = false)
    ∧ messages st1 = messages st ++ [mkChatMessage user (trim text)].
Proof.
  intros Hex. unfold sendMessage.
  assert (Hne : trim text ≠ []).
  { intros Hnil. apply JsStringExtra.trim_nil in Hnil.
    apply Exists_exists in Hex as (c & Hc & Hws).
    rewrite Forall_forall in Hnil. specialize (Hnil c Hc). congruence. }
  destruct (trim text) as [| c t] eqn:E; [done |]. cbn [truthy negb].
  do 3 eexists. split; [reflexivity |]. cbn [message].
  split; [reflexivity |]. split; [done |].
  rewrite <- E.
  split; [apply JsStringExtra.trim_head |].
  split; [apply JsStringExtra.trim_last |]. reflexivity.
Qed.

Lemma nonblank_input_is_sent_witness :
  ∃ st1 body voice,
    sendMessage (lit "  to Paris ") ready_to_plan = Awaiting st1 body voice
    ∧ message body = trim (lit "  to Paris ")
    ∧ message body ≠ []
    ∧ (∀ c, head (message body) = Some c → is_white_space c = false)
    ∧ (∀ c, last (message body) = Some c → is_white_space c = false)
    ∧ messages st1 =
      messages ready_to_plan ++ [mkChatMessage user (trim (lit "  to Paris "))].
Proof.
  apply nonblank_input_is_sent. vm_compute.
  apply Exists_cons_tl, Exists_cons_tl, Exists_cons_hd. reflexivity.
Defined.

Lemma sendMessage_sends text st :
  truthy (trim text) = true →
  sendMessage text st =
  Awaiting
    (setLoading true
       (setInput [] (push_message (mkChatMessage user (trim text)) st)))
    {| message := trim text;
       conversation :=
         List.filter (fun m => negb (Role_eqb (role m) system)) (messages st);
       extracted_params := extractedParams st;
       confirmed := false |}
    (voiceEnabled st).
Proof. intros H. unfold sendMessage. by rewrite H. Qed.

Lemma settle_clears_loading voice response st :
  loading (sendMessage_settle voice response st).1.1 = false.
Proof.
  destruct response as [data |]; cbn; [destruct (success data) |]; reflexivity.
Qed.

Lemma handleSubmit_accepts st :
  truthy (trim (input st)) = true → loading st = false →
  handleSubmit st =
  Some (Awaiting
          (setLoading true
             (setInput []
                (push_message (mkChatMessage user (trim (input st))) st)))
          {| message := trim (input st);
             conversation :=
               List.filter (fun m => negb (Role_eqb (role m) system))
                 (messages st);
             extracted_params := extractedParams st;
             confirmed := false |}
          (voiceEnabled st)).
Proof.
  intros Hin Hl. unfold handleSubmit. rewrite Hin, Hl. cbn [andb negb].
  by rewrite (sendMessage_sends _ _ Hin).
Qed.

(** The form is guarded by the [loading] flag alone.  A submission is
    accepted only when [loading] is false; it sends the trimmed input and
    sets [loading]; in every state in which [loading] is set a submission
    is ignored; every settlement clears [loading].  The flag does not count
    the pending requests: "Change Details" can be pressed while the request
    of the form is pending, and once its own request has settled, whatever
    the outcome, the form accepts a new submission although the first
    request is still pending. *)
Theorem form_guard_is_the_loading_flag st st1 body voice :
  handleSubmit st = Some (Awaiting st1 body voice) →
  loading st = false
  ∧ message body = trim (input st)
  ∧ loading st1 = true
  ∧ (∀ st', loading st' = true → handleSubmit st' = None)
  ∧ (∀ response, loading (sendMessage_settle voice response st1).1.1 = false)
  ∧ (paramsComplete st = true → planning st = false →
     ∃ st2 body2 voice2,
       click_change_details st1 = Some (Awaiting st2 body2 voice2)
       ∧ loading st2 = true
       ∧ ∀ response typed,
           truthy (trim typed) = true →
           ∃ st3 body3 voice3,
             handleSubmit
               (setInput typed (sendMessage_settle voice2 response st2).1.1)
             = Some (Awaiting st3 body3 voice3)
             ∧ message body3 = trim typed).
Proof.
  intros Hsub. unfold handleSubmit in Hsub.
  destruct (truthy (trim (input st))) eqn:Hin; [| discriminate Hsub].
  destruct (loading st) eqn:Hl; [discriminate Hsub |]. cbn in Hsub.
  rewrite (sendMessage_sends _ _ Hin) in Hsub.
  injection Hsub as <- <- <-.
  split; [reflexivity |]. split; [reflexivity |]. split; [reflexivity |].
  split.
  { intros st' Hl'. unfold handleSubmit. by rewrite Hl', andb_false_r. }
  split; [intros response; apply settle_clears_loading |].
  intros Hpc Hpl.
  unfold click_change_details, confirm_button_rendered, changeDetails. cbn.
  rewrite Hpc, Hpl. cbn [andb negb].
  rewrite sendMessage_sends by (vm_compute; reflexivity).
  do 3 eexists. split; [reflexivity |]. split; [reflexivity |].
  intros response typed Htyped.
  rewrite handleSubmit_accepts;
    [| exact Htyped | apply settle_clears_loading].
  do 3 eexists. split; [reflexivity | reflexivity].
Qed.

Lemma form_guard_is_the_loading_flag_witness :
  loading (setInput (lit "to Paris") ready_to_plan) = false
  ∧ handleSubmit
      (setLoading true
         (setInput []
            (push_message (mkChatMessage user (lit "to Paris"))
               (setInput (lit "to Paris") ready_to_plan)))) = None.
Proof.
  destruct (form_guard_is_the_loading_flag
              (setInput (lit "to Paris") ready_to_plan)
              (setLoading true
                 (setInput []
                    (push_message (mkChatMessage user (lit "to Paris"))
                       (setInput (lit "to Paris") ready_to_plan))))
              {| message := lit "to Paris";
                 conversation := [mkChatMessage assistant (lit "Hi!")];
                 extracted_params := only_origin; confirmed := false |}
              false) as (Hfree & _ & Hbusy & Hguard & _).
  - vm_compute. reflexivity.
  - split; [exact Hfree | exact (Hguard _ Hbusy)].
Defined.


(** The history only grows: each handler and each settlement leaves the
    messages it found in place and appends to them. *)
Theorem history_is_append_only :
  (∀ text st, messages st `prefix_of` messages (call_state (sendMessage text st)))
  ∧ (∀ voice response st,
       messages st `prefix_of` messages (sendMessage_settle voice response st).1.1)
  ∧ (∀ st, messages st `prefix_of` messages (call_state (handleConfirmPlan st)))
  ∧ (∀ voice response st,
       messages st `prefix_of`
         messages (handleConfirmPlan_settle voice response st).1.1).
Proof.
  repeat split.
  - intros text st. unfold sendMessage.
    destruct (negb (truthy (trim text))); cbn; [done | by eexists].
  - intros voice [data |] st; cbn; [destruct (success data) |]; by eexists.
  - intros st. cbn. by eexists.
  - intros voice [data |] st; cbn;
      [destruct (success data), (planning_result data) |]; by eexists.
Qed.

(** [onPlanReady] is called exactly when the reply to a confirm is
    successful and carries a planning result, and then once; in every other
    case the user is told that planning failed.  Either way the extracted
    parameters and the completeness flag are left as they are. *)
Theorem plan_ready_only_on_success voice response st :
  (List.existsb is_plan_ready (handleConfirmPlan_settle voice response st).1.2 = true
   ↔ ∃ data result, response = Some data ∧ success data = true
                    ∧ planning_result data = Some result)
  ∧ (length (List.filter is_plan_ready
               (handleConfirmPlan_settle voice response st).1.2) ≤ 1)%nat
  ∧ extractedParams (handleConfirmPlan_settle voice response st).1.1 =
    extractedParams st
  ∧ paramsComplete (handleConfirmPlan_settle voice response st).1.1 =
    paramsComplete st.
Proof.
  destruct response as [data |]; cbn.
  - destruct (success data) eqn:Hs, (planning_result data) as [result |] eqn:Hp;
      cbn; (split; [split |]).
    all: try (intros H; discriminate H).
    all: try (intros (d & r & Hd & Hs' & Hp'); simplify_eq; congruence).
    all: try (intros _; by eauto).
    all: try (split; [destruct voice; cbn; lia | done]).
  - split; [split |]; [intros H; discriminate H | | split; [lia | done]].
    intros (d & r & Hd & _). discriminate Hd.
Qed.

End TravelChatExtra.

(** ** The authentication store, other actions *)
Module AuthStoreExtra.
Import Storage AuthStore.

Local Arguments getItem : simpl never.
Local Arguments setItem : simpl never.
Local Arguments multiRemove : simpl never.

Lemma or_else_nonempty a b : b ≠ "" → or_else a b ≠ "".
Proof.
  intros Hb. unfold or_else. destruct a as [v |]; [| done].
  destruct (String.eqb v "") eqn:E; [done |]. by apply String.eqb_neq.
Qed.

Lemma stored_session_reads res s :
  getItem AUTH_TOKEN (store_session res s) = Some (accessToken (res_tokens res))
  ∧ getItem REFRESH_TOKEN (store_session res s) =
    Some (refreshToken (res_tokens res))
  ∧ getItem USER_DATA (store_session res s) = Some (user_json (res_user res)).
Proof.
  unfold store_session, getItem, setItem, JSON_stringify. repeat split.
  - rewrite !lookup_insert_ne by done. by rewrite lookup_insert_eq.
  - rewrite lookup_insert_ne by done. by rewrite lookup_insert_eq.
  - by rewrite lookup_insert_eq.
Qed.

(** What [login] or [register] stores, [restoreSession] reads back: after
    a successful sign-in a restart of the app, from any in-memory state,
    restores the same user and tokens and starts the background refresh of
    the user.  The tokens and the user text must be non-empty and the text
    must parse back to the user. *)
Theorem sign_in_then_restore JSON_parse message_of res st s st0 :
  accessToken (res_tokens res) ≠ "" →
  refreshToken (res_tokens res) ≠ "" →
  user_json (res_user res) ≠ "" →
  JSON_parse (user_json (res_user res)) = Some (res_user res) →
  (sign_in message_of (inr res) st s).1.1 = None
  ∧ isAuthenticated (sign_in message_of (inr res) st s).1.2 = true
  ∧ restoreSession JSON_parse st0 (sign_in message_of (inr res) st s).2 =
    ({| user := Some (res_user res); tokens := Some (res_tokens res);
        isAuthenticated := true; isLoading := false; error := error st0 |},
     true).
Proof.
  intros Ha Hr Hu Hparse. cbn [sign_in fst snd].
  split; [reflexivity |]. split; [reflexivity |].
  unfold restoreSession.
  destruct (stored_session_reads res s) as (-> & -> & ->).
  apply String.eqb_neq in Ha, Hr, Hu. unfold nonempty.
  rewrite Ha, Hr, Hu, Hparse. cbn. by destruct (res_tokens res).
Qed.

Lemma sign_in_then_restore_witness :
  restoreSession parse_any initial (login (inr sample_response) initial ∅).2 =
  ({| user := Some (res_user sample_response);
      tokens := Some (res_tokens sample_response);
      isAuthenticated := true; isLoading := false; error := error initial |},
   true).
Proof.
  apply (sign_in_then_restore parse_any login_message sample_response
           initial ∅ initial); [discriminate | discriminate | discriminate |].
  reflexivity.
Defined.

(** A failed login or registration stores nothing and keeps the user, the
    tokens and the authenticated flag as they were; it stops the loading
    indicator, and the message it records and rejects with is never empty. *)
Theorem failed_sign_in_stores_nothing e st s :
  (∀ message_of,
     (sign_in message_of (inl e) st s).2 = s
     ∧ user (sign_in message_of (inl e) st s).1.2 = user st
     ∧ tokens (sign_in message_of (inl e) st s).1.2 = tokens st
     ∧ isAuthenticated (sign_in message_of (inl e) st s).1.2 = isAuthenticated st
     ∧ isLoading (sign_in message_of (inl e) st s).1.2 = false
     ∧ error (sign_in message_of (inl e) st s).1.2 =
       (sign_in message_of (inl e) st s).1.1)
  ∧ (∃ m, (login (inl e) st s).1.1 = Some m ∧ m ≠ "")
  ∧ (∃ m, (register (inl e) st s).1.1 = Some m ∧ m ≠ "").
Proof.
  split; [intros message_of; by cbn |]. split; eexists; (split; [reflexivity |]).
  - unfold login_message. by repeat apply or_else_nonempty.
  - unfold register_message. by repeat apply or_else_nonempty.
Qed.

(** After [logout], whatever the server answered, a restart does not
    restore a session: [restoreSession] only stops the loading indicator. *)
Theorem logout_then_restore JSON_parse server st s st' s' st0 :
  logout server st s = inr (st', s') →
  restoreSession JSON_parse st0 s' = (stop_loading st0, false).
Proof.
  unfold logout. destruct server as [e | []]; cbn [try_catch];
    intros H; simplify_eq; unfold restoreSession;
    change (multiRemove [AUTH_TOKEN; REFRESH_TOKEN; USER_DATA] s)
      with (multiRemove session_keys s);
    (rewrite (StorageFacts.multiRemove_session_keys s AUTH_TOKEN);
     [done | unfold session_keys; set_solver]).
Qed.

Lemma logout_then_restore_witness :
  restoreSession parse_any initial
    (multiRemove [AUTH_TOKEN; REFRESH_TOKEN; USER_DATA]
       (store_session sample_response ∅)) =
  (stop_loading initial, false).
Proof.
  apply (logout_then_restore parse_any (inl (Api.AxiosError (Some 500)))
           initial (store_session sample_response ∅)
           {| user := None; tokens := None; isAuthenticated := false;
              isLoading := isLoading initial; error := None |}).
  reflexivity.
Defined.

(** [restoreSession] always stops the loading indicator, and it turns an
    unauthenticated state into an authenticated one only from a complete
    session: all three keys present and non-empty, and a user text that
    parses. *)
Theorem restore_needs_full_session JSON_parse st s :
  isLoading (restoreSession JSON_parse st s).1 = false
  ∧ (isAuthenticated st = false →
     isAuthenticated (restoreSession JSON_parse st s).1 = true →
     ∃ token refresh userData u,
       getItem AUTH_TOKEN s = Some token ∧ token ≠ ""
       ∧ getItem REFRESH_TOKEN s = Some refresh ∧ refresh ≠ ""
       ∧ getItem USER_DATA s = Some userData ∧ userData ≠ ""
       ∧ JSON_parse userData = Some u).
Proof.
  unfold restoreSession, nonempty.
  destruct (getItem AUTH_TOKEN s) as [t |];
    [| split; [done | intros H1 H2; cbn in H2; congruence]].
  destruct (getItem REFRESH_TOKEN s) as [r |];
    [| split; [done | intros H1 H2; cbn in H2; congruence]].
  destruct (getItem USER_DATA s) as [d |];
    [| split; [done | intros H1 H2; cbn in H2; congruence]].
  destruct (String.eqb t "") eqn:Et;
    [split; [done | intros H1 H2; cbn in H2; congruence] |].
  destruct (String.eqb r "") eqn:Er;
    [split; [done | intros H1 H2; cbn in H2; congruence] |].
  destruct (String.eqb d "") eqn:Ed;
    [split; [done | intros H1 H2; cbn in H2; congruence] |].
  cbn. destruct (JSON_parse d) as [u |] eqn:Hp;
    [| split; [done | intros H1 H2; cbn in H2; congruence]].
  split; [done |]. intros _ _.
  apply String.eqb_neq in Et, Er, Ed. by exists t, r, d, u.
Qed.

(** The interceptor and the store meet in the storage: after a refresh
    cycle that succeeded, a restart of the app restores the session with
    the new tokens (the stored user is not touched by the cycle). *)
Theorem restore_after_refresh JSON_parse st0 userData u
    st r rs1 rs2 rs3 rs4 rt a' r' :
  Api.idle st →
  getItem REFRESH_TOKEN (Api.storage st) = Some rt → rt ≠ "" →
  Api._retry r = false →
  Forall (λ q, Api._retry q = false) (rs1 ++ rs2 ++ rs3 ++ rs4) →
  getItem USER_DATA (Api.storage st) = Some userData → userData ≠ "" →
  JSON_parse userData = Some u → a' ≠ "" → r' ≠ "" →
  ∃ st' acts,
    Api.run st (Api.refresh_cycle r rs1 rs2 rs3 rs4 a' r') = Some (st', acts)
    ∧ restoreSession JSON_parse st0 (Api.storage st') =
      ({| user := Some u;
          tokens := Some {| accessToken := a'; refreshToken := r' |};
          isAuthenticated := true; isLoading := false;
          error := error st0 |}, true).
Proof.
  intros Hidle Hrt Hne Hr Hrs Hud Hudne Hp Ha Hr'.
  do 2 eexists. split; [by apply (ApiFacts.refresh_cycle_run _ _ _ _ _ _ rt) |].
  cbn [Api.storage]. unfold restoreSession, getItem, setItem in *.
  rewrite lookup_insert_ne by done. rewrite lookup_insert_eq.
  rewrite lookup_insert_eq.
  rewrite !lookup_insert_ne by done. rewrite Hud.
  apply String.eqb_neq in Ha, Hr', Hudne. unfold nonempty.
  by rewrite Ha, Hr', Hudne, Hp.
Qed.

Lemma restore_after_refresh_witness :
  ∃ st' acts,
    Api.run (Api.at_rest (store_session sample_response ∅))
      (Api.refresh_cycle (Api.request 1 "A1") [] [] [] [] "A2" "R2")
      = Some (st', acts)
    ∧ restoreSession parse_any initial (Api.storage st') =
      ({| user := Some (mkUser "{}");
          tokens := Some {| accessToken := "A2"; refreshToken := "R2" |};
          isAuthenticated := true; isLoading := false;
          error := error initial |}, true).
Proof.
  apply (restore_after_refresh parse_any initial "{}" (mkUser "{}")
           (Api.at_rest (store_session sample_response ∅))
           (Api.request 1 "A1") [] [] [] [] "R1" "A2" "R2");
    [repeat split | reflexivity | discriminate | reflexivity | constructor
    | reflexivity | discriminate | reflexivity | discriminate | discriminate].
Defined.

(** After a refresh that failed, the interceptor has removed the session
    keys, so a restart of the app restores nothing. *)
Theorem restore_after_failed_refresh JSON_parse st0 st hd rt e late :
  Api.isRefreshing st = true → Api.handlers st = [hd] →
  Api.pc hd = Api.AwaitRefreshPost rt →
  Forall (λ q, Api._retry q = false) late →
  ∃ st' acts,
    Api.run st (Api.failed_refresh e late) = Some (st', acts)
    ∧ restoreSession JSON_parse st0 (Api.storage st') =
      (stop_loading st0, false).
Proof.
  intros Hr Hh Hpc Hlate.
  do 2 eexists. split; [by apply (ApiFacts.failed_refresh_run st hd rt) |].
  cbn [Api.storage]. unfold restoreSession.
  rewrite (StorageFacts.multiRemove_session_keys _ AUTH_TOKEN); [done |].
  unfold session_keys. set_solver.
Qed.

Lemma restore_after_failed_refresh_witness :
  ∃ st' acts,
    Api.run {| Api.isRefreshing := true; Api.failedQueue := [];
               Api.storage := store_session sample_response ∅;
               Api.handlers :=
                 [Api.mkHandler (Api.set_retry (Api.request 1 "A1"))
                    (Api.AwaitRefreshPost "R1")] |}
      (Api.failed_refresh (Api.AxiosError (Some 401)) []) = Some (st', acts)
    ∧ restoreSession parse_any initial (Api.storage st') =
      (stop_loading initial, false).
Proof.
  apply (restore_after_failed_refresh parse_any initial _
           (Api.mkHandler (Api.set_retry (Api.request 1 "A1"))
              (Api.AwaitRefreshPost "R1")) "R1");
    [reflexivity | reflexivity | reflexivity | constructor].
Defined.

End AuthStoreExtra.

(** ** Marking and removing by id in a list with distinct ids *)
Module ByIdFacts.
Import ById.

Section ById.
Context {A K : Type} (idf : A → K) (readf : A → bool) (mark : A → A).
Context (eqb : K → K → bool).
Hypothesis eqb_eq : ∀ a b, eqb a b = true ↔ a = b.
Hypothesis mark_id : ∀ a, idf (mark a) = idf a.
Hypothesis mark_read : ∀ a, readf (mark a) = true.

Lemma eqb_false a b : a ≠ b → eqb a b = false.
Proof.
  intros Hne. destruct (eqb a b) eqn:E; [| done]. by apply eqb_eq in E.
Qed.

Lemma count_unread_cons n l :
  count_unread readf (n :: l) =
  ((if readf n then 0 else 1) + count_unread readf l)%Z.
Proof. unfold count_unread. cbn. destruct (readf n); cbn; lia. Qed.

Lemma first_unread_cons i n l :
  first_unread idf readf eqb i (n :: l) =
  if eqb (idf n) i then negb (readf n) else first_unread idf readf eqb i l.
Proof. unfold first_unread. cbn. by destruct (eqb (idf n) i). Qed.

Lemma mark_one_cons i n l :
  mark_one idf mark eqb i (n :: l) =
  (if eqb (idf n) i then mark n else n) :: mark_one idf mark eqb i l.
Proof. reflexivity. Qed.

Lemma drop_one_cons i n l :
  drop_one idf eqb i (n :: l) =
  if eqb (idf n) i then drop_one idf eqb i l else n :: drop_one idf eqb i l.
Proof. unfold drop_one. cbn. by destruct (eqb (idf n) i). Qed.

Lemma mark_one_absent i l : i ∉ map idf l → mark_one idf mark eqb i l = l.
Proof.
  induction l as [| n l IH]; [done |]. cbn [map]. intros Hni.
  apply not_elem_of_cons in Hni as [Hne Hni].
  rewrite mark_one_cons, eqb_false by done. by rewrite IH.
Qed.

Lemma drop_one_absent i l : i ∉ map idf l → drop_one idf eqb i l = l.
Proof.
  induction l as [| n l IH]; [done |]. cbn [map]. intros Hni.
  apply not_elem_of_cons in Hni as [Hne Hni].
  rewrite drop_one_cons, eqb_false by done. by rewrite IH.
Qed.

Lemma mark_one_ids i l : map idf (mark_one idf mark eqb i l) = map idf l.
Proof.
  induction l as [| n l IH]; [done |].
  rewrite mark_one_cons. cbn [map]. rewrite IH.
  by destruct (eqb (idf n) i); rewrite ?mark_id.
Qed.

Lemma drop_one_ids i l k :
  k ∈ map idf (drop_one idf eqb i l) → k ∈ map idf l.
Proof.
  induction l as [| n l IH]; [done |].
  rewrite drop_one_cons. cbn [map].
  destruct (eqb (idf n) i); cbn [map]; rewrite ?elem_of_cons; intuition.
Qed.

Lemma drop_one_distinct i l :
  NoDup (map idf l) → NoDup (map idf (drop_one idf eqb i l)).
Proof.
  induction l as [| n l IH]; [done |].
  rewrite drop_one_cons. cbn [map].
  rewrite NoDup_cons. intros [Hni Hnd].
  destruct (eqb (idf n) i); cbn [map]; [by apply IH |].
  apply NoDup_cons. split; [| by apply IH].
  intros Hin. by apply Hni, (drop_one_ids i).
Qed.

Lemma count_mark_one i l :
  NoDup (map idf l) →
  count_unread readf (mark_one idf mark eqb i l) =
  (count_unread readf l -
   (if first_unread idf readf eqb i l then 1 else 0))%Z.
Proof.
  induction l as [| n l IH]; [done |]. cbn [map].
  rewrite NoDup_cons. intros [Hni Hnd].
  rewrite mark_one_cons, first_unread_cons, !count_unread_cons.
  destruct (eqb (idf n) i) eqn:E.
  - apply eqb_eq in E. subst i.
    rewrite mark_one_absent by done. rewrite mark_read.
    destruct (readf n); cbn; lia.
  - rewrite IH by done. lia.
Qed.

Lemma count_drop_one i l :
  NoDup (map idf l) →
  count_unread readf (drop_one idf eqb i l) =
  (count_unread readf l -
   (if first_unread idf readf eqb i l then 1 else 0))%Z.
Proof.
  induction l as [| n l IH]; [done |]. cbn [map].
  rewrite NoDup_cons. intros [Hni Hnd].
  rewrite drop_one_cons, first_unread_cons, count_unread_cons.
  destruct (eqb (idf n) i) eqn:E.
  - apply eqb_eq in E. subst i.
    rewrite drop_one_absent by done.
    destruct (readf n); cbn; lia.
  - rewrite count_unread_cons, IH by done. lia.
Qed.

Lemma count_mark_all l : count_unread readf (map mark l) = 0%Z.
Proof.
  induction l as [| n l IH]; [done |]. cbn [map].
  rewrite count_unread_cons, mark_read, IH. lia.
Qed.

Lemma count_nonneg l : (0 ≤ count_unread readf l)%Z.
Proof. unfold count_unread. lia. Qed.

End ById.

End ByIdFacts.

(** ** The notification stores *)
Module NotificationFacts.
Import ById ByIdFacts.

Lemma string_eqb_eq (a b : string) : String.eqb a b = true ↔ a = b.
Proof. apply String.eqb_eq. Qed.

Lemma Id_eqb_eq (a b : MobileNotificationStore.Id) :
  MobileNotificationStore.Id_eqb a b = true ↔ a = b.
Proof.
  destruct a as [s | n], b as [t | m]; cbn.
  - rewrite String.eqb_eq. split; congruence.
  - split; [discriminate | congruence].
  - split; [discriminate | congruence].
  - rewrite Z.eqb_eq. split; congruence.
Qed.

(** Web client: as long as no two notifications share an id, every action
    of the store keeps [unreadCount] equal to the number of unread
    notifications in the list, and marking or removing keeps the ids
    distinct; adding keeps them distinct when the new id is not in use. *)
Theorem web_unread_count_is_kept st n i :
  NotificationStore.consistent st → NotificationStore.distinct st →
  NotificationStore.consistent (NotificationStore.addNotification n st)
  ∧ NotificationStore.consistent (NotificationStore.markAsRead i st)
  ∧ NotificationStore.distinct (NotificationStore.markAsRead i st)
  ∧ NotificationStore.consistent (NotificationStore.markAllAsRead st)
  ∧ NotificationStore.distinct (NotificationStore.markAllAsRead st)
  ∧ NotificationStore.consistent (NotificationStore.removeNotification i st)
  ∧ NotificationStore.distinct (NotificationStore.removeNotification i st)
  ∧ (NotificationStore.id n ∉ map NotificationStore.id
                                (NotificationStore.notifications st) →
     NotificationStore.distinct (NotificationStore.addNotification n st)).
Proof.
  unfold NotificationStore.consistent, NotificationStore.distinct.
  intros Hc Hd. repeat split; cbn.
  - change (NotificationStore.unread ?l)
      with (count_unread NotificationStore.read l) in *.
    rewrite count_unread_cons. destruct (NotificationStore.read n); lia.
  - change (NotificationStore.unread ?l)
      with (count_unread NotificationStore.read l) in *.
    pose proof (count_mark_one NotificationStore.id NotificationStore.read
                  NotificationStore.as_read String.eqb string_eqb_eq
                  (λ _, eq_refl) i _ Hd) as Hm.
    unfold mark_one, first_unread in Hm. rewrite Hm.
    unfold NotificationStore.wasUnread.
    destruct (List.find _ _) as [m |]; [destruct (negb _) |]; lia.
  - pose proof (mark_one_ids NotificationStore.id NotificationStore.as_read
                  String.eqb (λ _, eq_refl) i
                  (NotificationStore.notifications st)) as Hm.
    unfold mark_one in Hm. by rewrite Hm.
  - symmetry. apply (count_mark_all NotificationStore.read
                       NotificationStore.as_read (λ _, eq_refl)).
  - rewrite map_map. exact Hd.
  - change (NotificationStore.unread ?l)
      with (count_unread NotificationStore.read l) in *.
    pose proof (count_drop_one NotificationStore.id NotificationStore.read
                  String.eqb string_eqb_eq i _ Hd) as Hm.
    unfold drop_one, first_unread in Hm. rewrite Hm.
    unfold NotificationStore.wasUnread.
    destruct (List.find _ _) as [m |]; [destruct (negb _) |]; lia.
  - apply (drop_one_distinct NotificationStore.id String.eqb i _ Hd).
  - intros Hfresh. by apply NoDup_cons.
Qed.

Lemma web_unread_count_is_kept_witness :
  NotificationStore.consistent
    (NotificationStore.markAsRead "n1"
       (NotificationStore.addNotification
          (NotificationStore.mkNotification "n1" false "Price drop")
          NotificationStore.initial)).
Proof.
  apply (web_unread_count_is_kept
           (NotificationStore.addNotification
              (NotificationStore.mkNotification "n1" false "Price drop")
              NotificationStore.initial)
           (NotificationStore.mkNotification "n1" false "Price drop") "n1").
  - reflexivity.
  - unfold NotificationStore.distinct. cbn. apply NoDup_singleton.
Defined.

(** Mobile app: [setNotifications] makes [unreadCount] equal to the number
    of unread notifications whatever it was; adding, marking all, removing
    and clearing keep it so while ids are distinct; [markAsRead] keeps it so
    when the notification is in the list and unread. *)
Theorem mobile_unread_count_is_kept st l n i :
  MobileNotificationStore.consistent st → MobileNotificationStore.distinct st →
  MobileNotificationStore.consistent (MobileNotificationStore.setNotifications l st)
  ∧ MobileNotificationStore.consistent (MobileNotificationStore.addNotification n st)
  ∧ MobileNotificationStore.consistent (MobileNotificationStore.markAllAsRead st)
  ∧ MobileNotificationStore.consistent (MobileNotificationStore.removeNotification i st)
  ∧ MobileNotificationStore.distinct (MobileNotificationStore.removeNotification i st)
  ∧ MobileNotificationStore.consistent (MobileNotificationStore.clearAll st)
  ∧ (MobileNotificationStore.wasUnread i (MobileNotificationStore.notifications st)
       = true →
     MobileNotificationStore.consistent (MobileNotificationStore.markAsRead i st)).
Proof.
  unfold MobileNotificationStore.consistent, MobileNotificationStore.distinct.
  intros Hc Hd.
  pose proof (count_nonneg MobileNotificationStore.read
                (MobileNotificationStore.notifications st)) as Hpos.
  repeat split; cbn.
  - change (MobileNotificationStore.unread ?l)
      with (count_unread MobileNotificationStore.read l) in *.
    rewrite count_unread_cons. destruct (MobileNotificationStore.read n); lia.
  - symmetry. apply (count_mark_all MobileNotificationStore.read
                       MobileNotificationStore.as_read (λ _, eq_refl)).
  - change (MobileNotificationStore.unread ?l)
      with (count_unread MobileNotificationStore.read l) in *.
    pose proof (count_drop_one MobileNotificationStore.id
                  MobileNotificationStore.read MobileNotificationStore.Id_eqb
                  Id_eqb_eq i _ Hd) as Hm.
    unfold drop_one, first_unread in Hm. rewrite Hm.
    unfold MobileNotificationStore.wasUnread.
    pose proof (count_nonneg MobileNotificationStore.read
                  (List.filter
                     (λ n0, negb (MobileNotificationStore.Id_eqb
                                    (MobileNotificationStore.id n0) i))
                     (MobileNotificationStore.notifications st))) as Hpos'.
    rewrite Hm in Hpos'. unfold first_unread in Hpos'.
    destruct (List.find _ _) as [m |]; [destruct (negb _) |]; lia.
  - apply (drop_one_distinct MobileNotificationStore.id
             MobileNotificationStore.Id_eqb i _ Hd).
  - intros Hun.
    change (MobileNotificationStore.unread ?l)
      with (count_unread MobileNotificationStore.read l) in *.
    pose proof (count_mark_one MobileNotificationStore.id
                  MobileNotificationStore.read MobileNotificationStore.as_read
                  MobileNotificationStore.Id_eqb Id_eqb_eq
                  (λ _, eq_refl) i _ Hd) as Hm.
    pose proof (count_nonneg MobileNotificationStore.read
                  (mark_one MobileNotificationStore.id
                     MobileNotificationStore.as_read
                     MobileNotificationStore.Id_eqb i
                     (MobileNotificationStore.notifications st))) as Hpos'.
    unfold mark_one, first_unread in Hm, Hpos'. rewrite Hm in Hpos' |- *.
    unfold MobileNotificationStore.wasUnread in Hun. rewrite Hun in Hpos' |- *.
    lia.
Qed.

Lemma mobile_unread_count_is_kept_witness :
  MobileNotificationStore.consistent
    (MobileNotificationStore.addNotification
       (MobileNotificationStore.mkNotification
          (MobileNotificationStore.Num 7) false "Booked")
       MobileNotificationStore.initial).
Proof.
  apply (mobile_unread_count_is_kept MobileNotificationStore.initial []
           (MobileNotificationStore.mkNotification
              (MobileNotificationStore.Num 7) false "Booked")
           (MobileNotificationStore.Num 7)).
  - reflexivity.
  - unfold MobileNotificationStore.distinct. cbn. apply NoDup_nil_2.
Defined.

(** Mobile app: [markAsRead] lowers the counter without looking at the
    notification.  When the id is unknown or the notification was already
    read, the list keeps its unread notifications while a positive counter
    drops by one, so the counter no longer agrees with the list. *)
Theorem mobile_mark_read_miscounts st i :
  MobileNotificationStore.consistent st → MobileNotificationStore.distinct st →
  MobileNotificationStore.wasUnread i (MobileNotificationStore.notifications st)
    = false →
  (0 < MobileNotificationStore.unreadCount st)%Z →
  MobileNotificationStore.unread
    (MobileNotificationStore.notifications (MobileNotificationStore.markAsRead i st))
  = MobileNotificationStore.unread (MobileNotificationStore.notifications st)
  ∧ MobileNotificationStore.unreadCount (MobileNotificationStore.markAsRead i st)
    = (MobileNotificationStore.unreadCount st - 1)%Z
  ∧ ¬ MobileNotificationStore.consistent (MobileNotificationStore.markAsRead i st).
Proof.
  unfold MobileNotificationStore.consistent, MobileNotificationStore.distinct.
  intros Hc Hd Hun Hpos.
  assert (Hlist :
    MobileNotificationStore.unread
      (MobileNotificationStore.notifications
         (MobileNotificationStore.markAsRead i st))
    = MobileNotificationStore.unread (MobileNotificationStore.notifications st)).
  { cbn.
    change (MobileNotificationStore.unread ?l)
      with (count_unread MobileNotificationStore.read l).
    pose proof (count_mark_one MobileNotificationStore.id
                  MobileNotificationStore.read MobileNotificationStore.as_read
                  MobileNotificationStore.Id_eqb Id_eqb_eq
                  (λ _, eq_refl) i _ Hd) as Hm.
    unfold mark_one, first_unread in Hm. rewrite Hm.
    unfold MobileNotificationStore.wasUnread in Hun. rewrite Hun. lia. }
  split; [exact Hlist |]. split; [cbn; lia |].
  rewrite Hlist. cbn. lia.
Qed.

Lemma mobile_mark_read_miscounts_witness :
  ¬ MobileNotificationStore.consistent
      (MobileNotificationStore.markAsRead (MobileNotificationStore.Num 9)
         (MobileNotificationStore.addNotification
            (MobileNotificationStore.mkNotification
               (MobileNotificationStore.Num 7) false "Booked")
            MobileNotificationStore.initial)).
Proof.
  apply (mobile_mark_read_miscounts
           (MobileNotificationStore.addNotification
              (MobileNotificationStore.mkNotification
                 (MobileNotificationStore.Num 7) false "Booked")
              MobileNotificationStore.initial)
           (MobileNotificationStore.Num 9)).
  - reflexivity.
  - unfold MobileNotificationStore.distinct. cbn. apply NoDup_singleton.
  - reflexivity.
  - reflexivity.
Defined.

End NotificationFacts.

(** ** The display formatters *)
Module FormattersFacts.
Import JsString Formatters.

(** Formatting a flight number twice gives what formatting it once gives,
    and the only change formatting ever makes is one space inserted after
    the first two characters. *)
Theorem formatFlightNumber_idempotent s :
  formatFlightNumber (formatFlightNumber s) = formatFlightNumber s
  ∧ (formatFlightNumber s = s
     ∨ formatFlightNumber s = take 2 s ++ lit " " ++ drop 2 s).
Proof.
  unfold formatFlightNumber.
  destruct s as [| a [| b [| d rest]]]; try (split; [reflexivity | by left]).
  destruct (is_upper a && is_upper b && forallb is_digit (d :: rest)) eqn:E.
  - split; [| by right].
    cbn. by rewrite andb_false_r.
  - split; [| by left]. by rewrite E.
Qed.

Lemma filter_digits_all l :
  forallb is_digit l = true → List.filter is_digit l = l.
Proof.
  induction l as [| c l IH]; cbn; [done |].
  intros H. apply andb_prop in H as [Hc Hl]. by rewrite Hc, IH.
Qed.

Lemma digits_of_filter l : forallb is_digit (List.filter is_digit l) = true.
Proof.
  induction l as [| c l IH]; cbn; [done |].
  destruct (is_digit c) eqn:E; cbn; [by rewrite E |]. exact IH.
Qed.

Lemma forallb_take n (l : js_string) :
  forallb is_digit l = true → forallb is_digit (take n l) = true.
Proof.
  revert n. induction l as [| c l IH]; intros [| n]; cbn; try done.
  intros H. apply andb_prop in H as [Hc Hl]. by rewrite Hc, IH.
Qed.

Lemma forallb_drop n (l : js_string) :
  forallb is_digit l = true → forallb is_digit (drop n l) = true.
Proof.
  revert n. induction l as [| c l IH]; intros [| n]; cbn; try done.
  intros H. apply andb_prop in H as [Hc Hl]. by apply IH.
Qed.

Lemma digits_of_layout cleaned :
  forallb is_digit cleaned = true →
  List.filter is_digit
    (lit "(" ++ take 3 cleaned ++ lit ") " ++ take 3 (drop 3 cleaned) ++
     lit "-" ++ drop 6 cleaned) = cleaned.
Proof.
  intros Hd. rewrite !List.filter_app.
  rewrite (filter_digits_all (take 3 cleaned)) by by apply forallb_take.
  rewrite (filter_digits_all (take 3 (drop 3 cleaned)))
    by by apply forallb_take, forallb_drop.
  rewrite (filter_digits_all (drop 6 cleaned)) by by apply forallb_drop.
  change (List.filter is_digit (lit "(")) with (@nil N).
  change (List.filter is_digit (lit ") ")) with (@nil N).
  change (List.filter is_digit (lit "-")) with (@nil N).
  cbn [app].
  replace (drop 6 cleaned) with (drop 3 (drop 3 cleaned)) by by rewrite drop_drop.
  by rewrite take_drop, take_drop.
Qed.

(** Formatting a phone number never changes its digits, and formatting
    twice gives what formatting once gives. *)
Theorem formatPhoneNumber_idempotent phone :
  List.filter is_digit (formatPhoneNumber phone) = List.filter is_digit phone
  ∧ formatPhoneNumber (formatPhoneNumber phone) = formatPhoneNumber phone.
Proof.
  unfold formatPhoneNumber.
  destruct (Nat.eqb (length (List.filter is_digit phone)) 10) eqn:E.
  - rewrite digits_of_layout by apply digits_of_filter.
    split; [reflexivity |]. by rewrite E.
  - split; [reflexivity |]. by rewrite E.
Qed.

(** For a limit that is not negative, a text within the limit is returned
    as it is; a longer one is cut to the limit and gets three dots, so the
    result can be up to three characters longer than the limit.  The result
    always starts like the text. *)
Theorem truncateText_bound text maxLength :
  (0 ≤ maxLength)%Z →
  (Z.of_nat (length (truncateText text maxLength)) ≤ maxLength + 3)%Z
  ∧ ((Z.of_nat (length text) ≤ maxLength)%Z → truncateText text maxLength = text)
  ∧ ((maxLength < Z.of_nat (length text))%Z →
     truncateText text maxLength = take (Z.to_nat maxLength) text ++ lit "...")
  ∧ take (Z.to_nat maxLength) (truncateText text maxLength) =
    take (Z.to_nat maxLength) text.
Proof.
  intros Hpos. unfold truncateText, slice_to.
  destruct (Z.of_nat (length text) <=? maxLength)%Z eqn:E.
  - apply Z.leb_le in E.
    split; [lia |]. split; [done |]. split; [intros H; lia | done].
  - apply Z.leb_gt in E.
    assert (Z.ltb maxLength 0 = false) as -> by by apply Z.ltb_ge.
    rewrite Z.min_l by lia.
    split; [rewrite length_app, length_take; cbn; lia |].
    split; [intros H; lia |]. split; [done |].
    rewrite take_app_le by (rewrite length_take; lia).
    by rewrite take_take, Nat.min_id.
Qed.

Lemma truncateText_bound_witness :
  take (Z.to_nat 5) (truncateText (lit "Paris, France") 5) =
  take (Z.to_nat 5) (lit "Paris, France").
Proof. apply truncateText_bound. lia. Defined.

End FormattersFacts.
